(** * HomeResourceMonitor: the measurement and control core of the sketch

    A shallow embedding of [HomeResourceMonitor.ino] (solar hot water
    monitor for an Arduino with Ethernet shield, DS18B20 temperature
    sensors, a hall-effect flow sensor and a booster relay) and the
    properties of its sensor reader, sanity filter, averaging ring buffer,
    boost controller, flow integration and UDP command handling.

    Target: the AVR boards the sketch is written for.  [int] is 16 bits wide
    (the sketch itself says the averages "need to be long to contain
    N * temp"), [long] is 32 bits, [byte] is 8 bits and [float] (as well as
    [double]) is IEEE 754 binary32. *)

From Stdlib Require Import ZArith Lia Bool List.
From Stdlib Require Import Strings.String Strings.Ascii Strings.Byte.
From Stdlib Require Import Floats.SpecFloat.
From stdpp Require Import base list.

Local Open Scope Z_scope.

(** ** Machine integers *)

Module Machine.

(** Unsigned wrap-around at [w] bits. *)
Definition wrapu (w : Z) (z : Z) : Z := z mod 2 ^ w.

(** Signed (two's complement) wrap-around at [w] bits. *)
Definition wraps (w : Z) (z : Z) : Z :=
  (z + 2 ^ (w - 1)) mod 2 ^ w - 2 ^ (w - 1).

Definition to_byte (z : Z) : Z := wrapu 8 z.      (* byte, uint8_t        *)
Definition to_uint (z : Z) : Z := wrapu 16 z.     (* unsigned int         *)
Definition to_ulong (z : Z) : Z := wrapu 32 z.    (* unsigned long        *)
Definition to_int (z : Z) : Z := wraps 16 z.      (* int                  *)
Definition to_long (z : Z) : Z := wraps 32 z.     (* long                 *)

Definition INT_MIN : Z := -32768.
Definition INT_MAX : Z := 32767.

Definition is_int (z : Z) : Prop := INT_MIN <= z <= INT_MAX.

(** The numeric value of a [uint8_t] read off the wire. *)
Definition byte_val (b : byte) : Z := Z.of_N (Byte.to_N b).

End Machine.
Export Machine.

(** ** Library routines the sketch links against

    [OneWire::crc8] comes from the OneWire library and
    [UDP_TX_PACKET_MAX_SIZE] from the Ethernet library; neither is part of
    the sketch, so the model takes them as an interface.  [avr_libs] below
    is the instance of the libraries an Arduino build uses. *)

Class Libraries := {
  crc8 : list byte -> byte;
  UDP_TX_PACKET_MAX_SIZE : nat
}.

(** The Dallas/Maxim CRC-8 of the OneWire library (polynomial
    x^8 + x^5 + x^4 + 1, reflected: 0x8C), in its bit-by-bit form. *)
Module DallasCRC.

Fixpoint crc_bits (n : nat) (crc inbyte : Z) : Z :=
  match n with
  | O => crc
  | S n' =>
      let mix := Z.land (Z.lxor crc inbyte) 1 in
      let crc := Z.shiftr crc 1 in
      let crc := if mix =? 0 then crc else Z.lxor crc 140 in
      crc_bits n' crc (Z.shiftr inbyte 1)
  end.

Definition crc8_Z (data : list byte) : Z :=
  fold_left (fun crc b => crc_bits 8 crc (byte_val b)) data 0.

Definition crc8 (data : list byte) : byte :=
  match Byte.of_N (Z.to_N (crc8_Z data)) with
  | Some b => b
  | None => x00
  end.

End DallasCRC.

#[export] Instance avr_libs : Libraries := {|
  crc8 := DallasCRC.crc8;
  UDP_TX_PACKET_MAX_SIZE := 24
|}.

(** ** Sensor reader: [getSaneCurrentTemp] *)

Module Sensor.

(** The nine scratchpad bytes one read attempt stores in [data[0..8]]. *)
Definition scratchpad := nat -> byte.

(** [OneWire::crc8(data,8) != data[8]] is false: the frame is intact. *)
Definition crc_ok `{Libraries} (data : scratchpad) : bool :=
  Byte.eqb (crc8 (map data (seq 0 8))) (data 8%nat).

(** Conversion of the raw reading to hundredths of a degree.  [TReading]
    is a [uint16_t], so its arithmetic is unsigned and 16 bits wide; the
    result is stored in the [int] variable [tmp]. *)
Definition decode (data : scratchpad) : Z :=
  let TReading := to_uint (Z.shiftl (byte_val (data 1%nat)) 8 + byte_val (data 0%nat)) in
  let sign := Z.land TReading 32768 in
  let TReading :=
    if sign =? 0 then TReading else to_uint (Z.lxor TReading 65535 + 1) in
  let tmp := to_int (to_uint (to_uint (6 * TReading) + TReading / 4)) in
  if sign =? 0 then tmp else to_int (- tmp).

(** [tmp > -500 && tmp < 10000]. *)
Definition in_range (tmp : Z) : bool := (-500 <? tmp) && (tmp <? 10000).

(** One attempt gets through: intact frame and reading in range. *)
Definition attempt_ok `{Libraries} (data : scratchpad) : bool :=
  crc_ok data && in_range (decode data).

(** What one call hands back: the return value, the content of [*temp]
    afterwards and the number of read attempts it made. *)
Record reading := {
  rd_ret : Z;
  rd_temp : Z;
  rd_attempts : nat
}.

(** The [for] loop, with [left] iterations to go and [i] already done.
    [bus i] is the scratchpad delivered to the attempt numbered [i]. *)
Fixpoint attempts `{Libraries} (left : nat) (i : nat) (bus : nat -> scratchpad)
    (temp : Z) : reading :=
  match left with
  | O => {| rd_ret := 0; rd_temp := temp; rd_attempts := i |}
  | S left' =>
      let data := bus i in
      if negb (crc_ok data) then attempts left' (S i) bus temp
      else
        let tmp := decode data in
        if in_range tmp
        then {| rd_ret := 1; rd_temp := tmp; rd_attempts := S i |}
        else attempts left' (S i) bus temp
  end.

Definition getSaneCurrentTemp `{Libraries} (bus : nat -> scratchpad) (temp : Z)
    : reading :=
  attempts 5 0 bus temp.

End Sensor.
Export Sensor.

(** ** Single-precision arithmetic

    On the AVR both [float] and [double] are IEEE 754 binary32, so every
    floating-point operation of the sketch is a binary32 operation rounded to
    nearest even, as specified by the standard library's [SpecFloat]. *)

Module Float32.

Definition prec : Z := 24.
Definition emax : Z := 128.

Definition float := spec_float.

Definition of_Z (z : Z) : float := binary_normalize prec emax z 0 false.
Definition div (x y : float) : float := SFdiv prec emax x y.
Definition mul (x y : float) : float := SFmul prec emax x y.
Definition ltb (x y : float) : bool := SFltb x y.

(** Truncation toward zero, the value C converts a float to; infinities
    and NaN have none. *)
Definition trunc (x : float) : option Z :=
  match x with
  | S754_zero _ => Some 0
  | S754_finite s m e =>
      let a := if 0 <=? e then Z.pos m * 2 ^ e else Z.pos m / 2 ^ (- e) in
      Some (if s then - a else a)
  | S754_infinity _ | S754_nan => None
  end.

(** Conversion to [unsigned int].  C defines it only when the truncated
    value is representable; the low 16 bits are kept otherwise, and 0
    stands for the conversion of an infinity or a NaN. *)
Definition to_unsigned_int (x : float) : Z :=
  match trunc x with
  | Some z => to_uint z
  | None => 0
  end.

End Float32.

(** ** The sketch's global state, its inputs and its outputs *)

Module Monitor.

Import Float32.

(** Booster relay ruleset. *)
Definition BOOST_ON_A_START : Z := 14.
Definition BOOST_ON_A_END : Z := 20.
Definition BOOST_ON_A_TEMP : Z := 4200.
Definition BOOST_ON_B_START : Z := 4.
Definition BOOST_ON_B_END : Z := 7.
Definition BOOST_ON_B_TEMP : Z := 4200.
Definition BOOST_OFF_TEMP : Z := 4600.

Definition SHW_RINGBUF_NUM_ITEMS : nat := 10.

(** [shw_hotwater_flowsensor_calibrationFactor = 5.5], that is
    11534336 * 2^-21. *)
Definition calibrationFactor : float := S754_finite false 11534336 (-21).

Definition IPAddress : Type := Z * Z * Z * Z.

Record state := mkState {
  remoteIP : IPAddress;
  remotePort : Z;
  haveremoteudp : bool;
  firsttime : bool;
  shw_ringbuf_offset : Z;
  shw_collector_temp_ringbuf : list Z;
  shw_vat_temp_ringbuf : list Z;
  last_avg_shw_collector_temp : Z;
  last_avg_shw_vat_temp : Z;
  shw_boost_state : bool;
  last_shw_boost_state : bool;
  shw_boost_override : bool;
  shw_hotwater_flowsensor_pulsecount : Z;
  shw_boost_pulsecount : Z;
  shw_hotwater_flowsensor_flow_rate : float;
  shw_hotwater_flowsensor_flow_ml : Z;
  shw_hotwater_flowsensor_total_ml : Z;
  shw_hotwater_flowsensor_oldtime : Z
}.

(** What a pass of [loop] makes visible outside the sketch: writes to the
    relay pin and the two kinds of UDP record (the date and time strings
    of the records, which come from the clock, are left out). *)
Inductive output :=
| RelayPin (high : bool)
| SHW_TEMP (ip : IPAddress) (port : Z) (collector vat : Z) (boost : ascii) (whpulses : Z)
| SHW_FLOW (ip : IPAddress) (port : Z) (rate : float) (ml : Z).

(** What the surroundings supply to one processing pass.  [hour] is the
    hour the clock hands over (the [do ... while (!valid)] loop around the
    clock read belongs to the clock and is not modelled: a pass is described
    from the plausible reading on); the two buses are the scratchpads the
    collector and vat sensors deliver; [boost_irqs] and [flow_irqs] count
    the runs of the two interrupt handlers since the previous drain of
    their counter; [millis_rate] and [millis_mark] are the values of the
    two [millis()] calls of the flow section. *)
Record pass_input := {
  hour : Z;
  collector_bus : nat -> scratchpad;
  vat_bus : nat -> scratchpad;
  boost_irqs : nat;
  flow_irqs : nat;
  millis_rate : Z;
  millis_mark : Z
}.

(** An inbound datagram as the Ethernet library presents it. *)
Record datagram := {
  dg_payload : list ascii;
  dg_ip : IPAddress;
  dg_port : Z
}.

(** What the surroundings supply to one call of [loop]: the value of the
    first [millis()] call, the inputs of the pass, the datagram waiting (if
    any) and the bytes that happen to lie where [packetBuffer] is
    allocated. *)
Record loop_input := {
  millis_gate : Z;
  pass : pass_input;
  inbound : option datagram;
  stack : nat -> ascii
}.

(** *** Interrupt handlers *)

Definition shw_hotwater_interrupt_handler (st : state) : state :=
  mkState (remoteIP st) (remotePort st) (haveremoteudp st) (firsttime st)
    (shw_ringbuf_offset st) (shw_collector_temp_ringbuf st)
    (shw_vat_temp_ringbuf st) (last_avg_shw_collector_temp st)
    (last_avg_shw_vat_temp st) (shw_boost_state st) (last_shw_boost_state st)
    (shw_boost_override st)
    (to_uint (shw_hotwater_flowsensor_pulsecount st + 1))
    (shw_boost_pulsecount st) (shw_hotwater_flowsensor_flow_rate st)
    (shw_hotwater_flowsensor_flow_ml st) (shw_hotwater_flowsensor_total_ml st)
    (shw_hotwater_flowsensor_oldtime st).

Definition shw_boostpulse_interrupt_handler (st : state) : state :=
  mkState (remoteIP st) (remotePort st) (haveremoteudp st) (firsttime st)
    (shw_ringbuf_offset st) (shw_collector_temp_ringbuf st)
    (shw_vat_temp_ringbuf st) (last_avg_shw_collector_temp st)
    (last_avg_shw_vat_temp st) (shw_boost_state st) (last_shw_boost_state st)
    (shw_boost_override st)
    (shw_hotwater_flowsensor_pulsecount st)
    (to_uint (shw_boost_pulsecount st + 1)) (shw_hotwater_flowsensor_flow_rate st)
    (shw_hotwater_flowsensor_flow_ml st) (shw_hotwater_flowsensor_total_ml st)
    (shw_hotwater_flowsensor_oldtime st).

(** *** Sanity filter and averaging *)

(** "not moving more than 1 degree from last avg": the two [if]s on the
    [int] difference of the reading and the last average. *)
Definition sanitise (temp last_avg : Z) : Z :=
  if 100 <? to_int (temp - last_avg) then to_int (last_avg + 100)
  else if to_int (temp - last_avg) <? -100 then to_int (last_avg - 100)
  else temp.

(** [ringbuf[offset] = temp] on an array of [SHW_RINGBUF_NUM_ITEMS]. *)
Definition ringbuf_write (buf : list Z) (offset : Z) (temp : Z) : list Z :=
  <[Z.to_nat offset := temp]> buf.

(** [shw_ringbuf_offset++; shw_ringbuf_offset %= SHW_RINGBUF_NUM_ITEMS]
    on a [byte]. *)
Definition ringbuf_advance (offset : Z) : Z :=
  to_byte (to_byte (offset + 1) mod Z.of_nat SHW_RINGBUF_NUM_ITEMS).

(** The summing loop over the slots, on a [long] accumulator. *)
Definition ringbuf_sum (buf : list Z) : Z :=
  fold_left (fun acc i => to_long (acc + buf !!! i)) (seq 0 SHW_RINGBUF_NUM_ITEMS) 0.

(** [avg /= SHW_RINGBUF_NUM_ITEMS]: C division truncates toward zero. *)
Definition ringbuf_avg (buf : list Z) : Z :=
  to_long (Z.quot (ringbuf_sum buf) (Z.of_nat SHW_RINGBUF_NUM_ITEMS)).

(** *** Boost switch logic: the new [(shw_boost_state, shw_boost_override)] *)
Definition boost_logic (avg_shw_vat_temp hour : Z) (boost override : bool)
    : bool * bool :=
  if BOOST_OFF_TEMP <=? avg_shw_vat_temp then (false, false)
  else if override
       || ((BOOST_ON_A_START <=? hour) && (hour <? BOOST_ON_A_END)
           && (avg_shw_vat_temp <? BOOST_ON_A_TEMP))
       || ((BOOST_ON_B_START <=? hour) && (hour <? BOOST_ON_B_END)
           && (avg_shw_vat_temp <? BOOST_ON_B_TEMP))
  then (true, override)
  else (boost, override).

(** *** Flow integration *)

(** [((1000.0 / (millis() - oldtime)) * pulsecount) / calibrationFactor];
    the [unsigned long] difference and the [unsigned int] count are
    converted to floating point. *)
Definition flow_rate (elapsed_ms pulsecount : Z) : float :=
  div (mul (div (of_Z 1000) (of_Z elapsed_ms)) (of_Z pulsecount)) calibrationFactor.

(** [(flow_rate / 60) * 1000], stored in an [unsigned int]. *)
Definition flow_ml (rate : float) : Z :=
  to_unsigned_int (mul (div rate (of_Z 60)) (of_Z 1000)).

(** *** One processing pass: the body of [if (... > 1000)] in [loop] *)

(** The handlers run whenever their interrupt fires; only the drains read
    the counters, so a pass starts from the state in which the handlers
    have run as often as they did since the counters were last emptied. *)
Definition interrupts (i : pass_input) (st : state) : state :=
  Nat.iter (flow_irqs i) shw_hotwater_interrupt_handler
    (Nat.iter (boost_irqs i) shw_boostpulse_interrupt_handler st).

Section Pass.
Context `{Libraries}.
Variables (st : state) (i : pass_input).

(** [collector_temp] and [vat_temp] after the calls of
    [getSaneCurrentTemp], each preloaded with the last average. *)
Definition collector_reading : reading :=
  getSaneCurrentTemp (collector_bus i) (last_avg_shw_collector_temp st).
Definition vat_reading : reading :=
  getSaneCurrentTemp (vat_bus i) (last_avg_shw_vat_temp st).

(** The same variables after the sanity filter: the values that go into
    the ring buffers. *)
Definition collector_temp : Z :=
  sanitise (rd_temp collector_reading) (last_avg_shw_collector_temp st).
Definition vat_temp : Z :=
  sanitise (rd_temp vat_reading) (last_avg_shw_vat_temp st).

Definition collector_ringbuf : list Z :=
  ringbuf_write (shw_collector_temp_ringbuf st) (shw_ringbuf_offset st) collector_temp.
Definition vat_ringbuf : list Z :=
  ringbuf_write (shw_vat_temp_ringbuf st) (shw_ringbuf_offset st) vat_temp.

Definition avg_shw_collector_temp : Z := ringbuf_avg collector_ringbuf.
Definition avg_shw_vat_temp : Z := ringbuf_avg vat_ringbuf.

Definition boost_after : bool * bool :=
  boost_logic avg_shw_vat_temp (hour i) (shw_boost_state st) (shw_boost_override st).

(** The counters as the two drains find them. *)
Definition shw_boostpulses : Z := shw_boost_pulsecount (interrupts i st).
Definition flow_pulses : Z := shw_hotwater_flowsensor_pulsecount (interrupts i st).

Definition elapsed_ms : Z :=
  to_ulong (to_ulong (millis_rate i) - shw_hotwater_flowsensor_oldtime st).

(** The condition under which the temperature record is sent. *)
Definition temp_report : bool :=
  firsttime st
  || negb (avg_shw_collector_temp =? last_avg_shw_collector_temp st)
  || negb (avg_shw_vat_temp =? last_avg_shw_vat_temp st)
  || negb (Bool.eqb (fst boost_after) (last_shw_boost_state st))
  || negb (shw_boostpulses =? 0).

(** The condition under which the flow record is sent. *)
Definition flow_report : bool :=
  firsttime st || ltb (of_Z 0) (flow_rate elapsed_ms flow_pulses).

Definition process : state * list output :=
  let boost := fst boost_after in
  let override := snd boost_after in
  let relay :=
    if Bool.eqb boost (last_shw_boost_state st) then [] else [RelayPin boost] in
  let boost_code :=
    if override then "2"%char else if boost then "1"%char else "0"%char in
  let temp_record :=
    if temp_report && haveremoteudp st
    then [SHW_TEMP (remoteIP st) (remotePort st)
            avg_shw_collector_temp avg_shw_vat_temp boost_code shw_boostpulses]
    else [] in
  let rate := flow_rate elapsed_ms flow_pulses in
  let ml := flow_ml rate in
  let flow_record :=
    if flow_report && haveremoteudp st
    then [SHW_FLOW (remoteIP st) (remotePort st) rate ml]
    else [] in
  (mkState (remoteIP st) (remotePort st) (haveremoteudp st)
     false
     (ringbuf_advance (shw_ringbuf_offset st))
     collector_ringbuf
     vat_ringbuf
     (if temp_report then to_int avg_shw_collector_temp
      else last_avg_shw_collector_temp st)
     (if temp_report then to_int avg_shw_vat_temp else last_avg_shw_vat_temp st)
     boost
     (if temp_report then boost else last_shw_boost_state st)
     override
     0
     0
     rate
     ml
     (to_ulong (shw_hotwater_flowsensor_total_ml st + ml))
     (to_ulong (millis_mark i)),
   relay ++ temp_record ++ flow_record).

End Pass.

(** *** [setup]: the state [loop] first runs in *)

Record setup_input := {
  setup_collector_bus : nat -> scratchpad;
  setup_vat_bus : nat -> scratchpad
}.

Definition setup `{Libraries} (i : setup_input) : state :=
  let collector := rd_temp (getSaneCurrentTemp (setup_collector_bus i) 0) in
  let vat := rd_temp (getSaneCurrentTemp (setup_vat_bus i) 0) in
  mkState (192, 168, 2, 160) 8888 true true
    0
    (replicate SHW_RINGBUF_NUM_ITEMS collector)
    (replicate SHW_RINGBUF_NUM_ITEMS vat)
    collector vat
    false false false
    0 0 (S754_zero false) 0 0 0.

(** *** Inbound datagrams *)

Definition NUL : ascii := Ascii.zero.

(** A string literal as it lies in memory. *)
Definition literal (s : string) : list ascii := list_ascii_of_string s ++ [NUL].

(** C's [strcmp] on two character arrays.  It stops at the first
    difference or at a common NUL; a read past the end of a list reads as
    NUL (no call below gets that far). *)
Fixpoint strcmp (s1 s2 : list ascii) : Z :=
  match s1, s2 with
  | c1 :: t1, c2 :: t2 =>
      if negb (Ascii.eqb c1 c2)
      then Z.of_nat (nat_of_ascii c1) - Z.of_nat (nat_of_ascii c2)
      else if Ascii.eqb c1 NUL then 0 else strcmp t1 t2
  | [], c2 :: _ => 0 - Z.of_nat (nat_of_ascii c2)
  | c1 :: _, [] => Z.of_nat (nat_of_ascii c1)
  | [], [] => 0
  end.

(** [Udp.parsePacket()]: the size of the waiting datagram, 0 if none. *)
Definition parsePacket (d : option datagram) : Z :=
  match d with
  | None => 0
  | Some d => to_int (Z.of_nat (length (dg_payload d)))
  end.

(** [Udp.read(buffer, len)] copies at most [len] bytes of the payload. *)
Definition udp_read (payload buffer : list ascii) (len : nat) : list ascii :=
  let n := Nat.min (length payload) len in
  take n payload ++ drop n buffer.

(** [buffer[index] = c]; C gives no meaning to a store outside the array. *)
Definition store (buffer : list ascii) (index : Z) (c : ascii) : option (list ascii) :=
  if (0 <=? index) && (index <? Z.of_nat (length buffer))
  then Some (<[Z.to_nat index := c]> buffer)
  else None.

(** The block under [if (packetSize)].  [None]: the terminator was stored
    outside [packetBuffer]. *)
Definition receive `{Libraries} (st : state) (d : datagram) (stack : nat -> ascii)
    : option state :=
  let packetSize := to_int (Z.of_nat (length (dg_payload d))) in
  let packetBuffer := map stack (seq 0 UDP_TX_PACKET_MAX_SIZE) in
  let packetBuffer := udp_read (dg_payload d) packetBuffer UDP_TX_PACKET_MAX_SIZE in
  match store packetBuffer packetSize NUL with
  | None => None
  | Some packetBuffer =>
      let '(boost, override) :=
        if strcmp packetBuffer (literal "BOOST_ON") =? 0
        then (shw_boost_state st, true)
        else if strcmp packetBuffer (literal "BOOST_OFF") =? 0
             then (false, false)
             else (shw_boost_state st, shw_boost_override st) in
      Some (mkState (dg_ip d) (dg_port d) true true
              (shw_ringbuf_offset st) (shw_collector_temp_ringbuf st)
              (shw_vat_temp_ringbuf st) (last_avg_shw_collector_temp st)
              (last_avg_shw_vat_temp st) boost (last_shw_boost_state st)
              override
              (shw_hotwater_flowsensor_pulsecount st)
              (shw_boost_pulsecount st) (shw_hotwater_flowsensor_flow_rate st)
              (shw_hotwater_flowsensor_flow_ml st)
              (shw_hotwater_flowsensor_total_ml st)
              (shw_hotwater_flowsensor_oldtime st))
  end.

(** *** [loop] *)

(** [(millis() - shw_hotwater_flowsensor_oldtime) > 1000] on
    [unsigned long]. *)
Definition gate (millis : Z) (st : state) : bool :=
  1000 <? to_ulong (to_ulong millis - shw_hotwater_flowsensor_oldtime st).

(** The second half of [loop]: "if there's data available, read a
    packet".  [r] is the state and the outputs the first half left. *)
Definition poll `{Libraries} (r : state * list output) (i : loop_input)
    : option (state * list output) :=
  if parsePacket (inbound i) =? 0 then Some r
  else
    match inbound i with
    | None => Some r
    | Some d =>
        match receive (fst r) d (stack i) with
        | Some st => Some (st, snd r)
        | None => None
        end
    end.

Definition loop `{Libraries} (st : state) (i : loop_input)
    : option (state * list output) :=
  poll (if gate (millis_gate i) st then process st (pass i) else (st, [])) i.

(** The states the sketch can be in between two calls of [loop]. *)
Inductive reachable `{Libraries} : state -> Prop :=
| reach_setup (i : setup_input) : reachable (setup i)
| reach_loop (st st' : state) (i : loop_input) (out : list output) :
    reachable st -> loop st i = Some (st', out) -> reachable st'.

(** Several passes in a row. *)
Fixpoint passes `{Libraries} (st : state) (ins : list pass_input) : state :=
  match ins with
  | [] => st
  | i :: ins => passes (fst (process st i)) ins
  end.

(** *** Vocabulary of the properties *)

(** The two sensor channels and, per channel, the variables of a pass. *)
Inductive channel := Collector | Vat.

Definition last_avg (ch : channel) (st : state) : Z :=
  match ch with
  | Collector => last_avg_shw_collector_temp st
  | Vat => last_avg_shw_vat_temp st
  end.

Definition ringbuf (ch : channel) (st : state) : list Z :=
  match ch with
  | Collector => shw_collector_temp_ringbuf st
  | Vat => shw_vat_temp_ringbuf st
  end.

Definition sensor_reading `{Libraries} (ch : channel) (st : state) (i : pass_input)
    : reading :=
  match ch with
  | Collector => collector_reading st i
  | Vat => vat_reading st i
  end.

(** The raw sample of the pass: what the sensor call leaves in the
    channel's variable. *)
Definition raw_sample `{Libraries} (ch : channel) (st : state) (i : pass_input) : Z :=
  rd_temp (sensor_reading ch st i).

(** The value of that variable when it is written into the ring buffer. *)
Definition fed `{Libraries} (ch : channel) (st : state) (i : pass_input) : Z :=
  match ch with
  | Collector => collector_temp st i
  | Vat => vat_temp st i
  end.

(** The smoothed average the pass computes. *)
Definition smoothed `{Libraries} (ch : channel) (st : state) (i : pass_input) : Z :=
  match ch with
  | Collector => avg_shw_collector_temp st i
  | Vat => avg_shw_vat_temp st i
  end.

(** A reading the range check lets through. *)
Definition sane (t : Z) : Prop := -500 < t < 10000.

(** The plain sum of the slots of a buffer. *)
Definition total (buf : list Z) : Z := foldr Z.add 0 buf.

(** What holds of the temperature variables between two calls of [loop]:
    the write offset indexes the buffers, both buffers are full, every
    slot and both averages are readings the sensor check lets through (or
    the initial 0), and each stored average is the mean of its buffer. *)
Definition invariant (st : state) : bool :=
  (0 <=? shw_ringbuf_offset st)
  && (shw_ringbuf_offset st <? Z.of_nat SHW_RINGBUF_NUM_ITEMS)
  && (length (shw_collector_temp_ringbuf st) =? SHW_RINGBUF_NUM_ITEMS)%nat
  && (length (shw_vat_temp_ringbuf st) =? SHW_RINGBUF_NUM_ITEMS)%nat
  && forallb in_range (shw_collector_temp_ringbuf st)
  && forallb in_range (shw_vat_temp_ringbuf st)
  && (last_avg_shw_collector_temp st =? ringbuf_avg (shw_collector_temp_ringbuf st))
  && (last_avg_shw_vat_temp st =? ringbuf_avg (shw_vat_temp_ringbuf st)).

(** Every pass of [ins], started from [st], reads the raw sample [w] on
    channel [ch] and the sanity filter lets it through unchanged. *)
Fixpoint ingests `{Libraries} (ch : channel) (w : Z) (st : state)
    (ins : list pass_input) : bool :=
  match ins with
  | [] => true
  | i :: ins =>
      (raw_sample ch st i =? w)
      && (Z.abs (w - last_avg ch st) <=? 100)
      && ingests ch w (fst (process st i)) ins
  end.

(** The C string an array of characters holds: what precedes the first
    NUL. *)
Fixpoint c_string (s : list ascii) : list ascii :=
  match s with
  | [] => []
  | c :: t => if Ascii.eqb c NUL then [] else c :: c_string t
  end.

Definition is_temp_record (o : output) : bool :=
  match o with SHW_TEMP _ _ _ _ _ _ => true | _ => false end.

Definition is_flow_record (o : output) : bool :=
  match o with SHW_FLOW _ _ _ _ => true | _ => false end.

End Monitor.

(** ** Concrete inputs used to exercise the model *)

Module Bench.

Import Monitor.

(** A scratchpad holding the raw reading [hi:lo] with a correct CRC. *)
Definition pad (lo hi : byte) : scratchpad :=
  fun n =>
    match n with
    | 0%nat => lo
    | 1%nat => hi
    | 8%nat => DallasCRC.crc8 [lo; hi; x00; x00; x00; x00; x00; x00]
    | _ => x00
    end.

(** The same reading with a damaged CRC byte. *)
Definition corrupt (lo hi : byte) : scratchpad :=
  fun n =>
    match n with
    | 8%nat =>
        if Byte.eqb (pad lo hi 8%nat) x00 then x01 else x00
    | _ => pad lo hi n
    end.

Definition pad_25_00 : scratchpad := pad x90 x01.       (*  25.00 C *)
Definition pad_26_00 : scratchpad := pad xa0 x01.       (*  26.00 C *)
Definition pad_43_00 : scratchpad := pad xb0 x02.       (*  43.00 C *)
Definition pad_100_00 : scratchpad := pad x40 x06.      (* 100.00 C *)
Definition pad_minus_5_00 : scratchpad := pad xb0 xff.  (*  -5.00 C *)

Definition pad_46_00 : scratchpad := pad xe0 x02.       (*  46.00 C *)

Definition steady (p : scratchpad) : nat -> scratchpad := fun _ => p.

(** Four failed attempts, then a good one. *)
Definition fifth_time_lucky : nat -> scratchpad :=
  fun n => if (n <? 2)%nat then corrupt x90 x01
           else if (n <? 4)%nat then pad_100_00 else pad_25_00.

Definition boot : state :=
  setup {| setup_collector_bus := steady pad_25_00;
           setup_vat_bus := steady pad_25_00 |}.

(** Relay on, vat at 43.00 C, no override. *)
Definition warm_on : state :=
  mkState (192, 168, 2, 160) 8888 true false 0
    (replicate 10 4300) (replicate 10 4300) 4300 4300
    true true false 0 0 (S754_zero false) 0 0 0.

(** Relay on by override, vat at 46.00 C. *)
Definition hot_override : state :=
  mkState (192, 168, 2, 160) 8888 true false 3
    (replicate 10 4300) (replicate 10 4600) 4300 4600
    true true true 0 0 (S754_zero false) 0 0 0.

(** A pass at [h] o'clock with both sensors steady, [pulses] flow pulses
    since the last pass and the flow section running at time [now]. *)
Definition pass_at (h : Z) (c v : scratchpad) (pulses : nat) (now : Z) : pass_input :=
  {| hour := h; collector_bus := steady c; vat_bus := steady v;
     boost_irqs := 0; flow_irqs := pulses;
     millis_rate := now; millis_mark := now |}.

(** Ten passes in a row with the vat sensor steady at 26.00 C. *)
Definition ten_passes : list pass_input :=
  repeat (pass_at 22 pad_25_00 pad_26_00 0 2000) 10.

Definition quiet (now : Z) : loop_input :=
  {| millis_gate := now; pass := pass_at 22 pad_25_00 pad_25_00 0 now;
     inbound := None; stack := fun _ => "x"%char |}.

Definition from (payload : list ascii) : datagram :=
  {| dg_payload := payload; dg_ip := (192, 168, 2, 7); dg_port := 8888 |}.

Definition with_packet (now : Z) (payload : list ascii) : loop_input :=
  {| millis_gate := now; pass := pass_at 22 pad_25_00 pad_25_00 0 now;
     inbound := Some (from payload); stack := fun _ => "x"%char |}.

End Bench.

(** ** The clock: [bcdToDec], [Dec2s] and the read loop of [loop] *)

Module Clock.

(** [bcdToDec]: "Convert binary coded decimal to normal decimal numbers".
    The argument and the result are [byte]s. *)
Definition bcdToDec (val : Z) : Z := to_byte (val / 16 * 10 + val mod 16).

(** [Dec2s]: the static array [s] after the call, terminator included. *)
Definition Dec2s (value : Z) : list ascii :=
  [ascii_of_nat (Z.to_nat (to_byte (48 + value / 10)));
   ascii_of_nat (Z.to_nat (to_byte (48 + value mod 10)));
   Monitor.NUL].

(** The seven registers one [Wire.requestFrom] delivers, in the order the
    sketch reads them. *)
Record registers := {
  reg_second : byte;
  reg_minute : byte;
  reg_hour : byte;
  reg_dayofweek : byte;
  reg_day : byte;
  reg_month : byte;
  reg_year : byte
}.

(** The seven [byte] variables of [loop] after one round of the read. *)
Record clock_time := {
  second : Z;
  minute : Z;
  hour : Z;
  dayofweek : Z;
  day : Z;
  month : Z;
  year : Z
}.

Definition decode_registers (r : registers) : clock_time :=
  {| second := bcdToDec (Z.land (byte_val (reg_second r)) 127);
     minute := bcdToDec (byte_val (reg_minute r));
     hour := bcdToDec (Z.land (byte_val (reg_hour r)) 63);
     dayofweek := bcdToDec (byte_val (reg_dayofweek r));
     day := bcdToDec (byte_val (reg_day r));
     month := bcdToDec (byte_val (reg_month r));
     year := bcdToDec (byte_val (reg_year r)) |}.

(** The condition that sets [valid]. *)
Definition plausible (t : clock_time) : bool :=
  (hour t <=? 23) && (minute t <=? 59) && (second t <=? 59)
  && (year t <=? 100) && (month t <=? 12) && (day t <=? 31).

(** The [do ... while (!valid)] loop, cut off after [fuel] rounds; [wire n]
    is what the clock delivers in round [n].  [None]: still no plausible
    reading. *)
Fixpoint read_clock (fuel n : nat) (wire : nat -> registers) : option clock_time :=
  match fuel with
  | O => None
  | S fuel' =>
      let t := decode_registers (wire n) in
      if plausible t then Some t else read_clock fuel' (S n) wire
  end.

(** [date_str] and [time_str] as the [String] concatenations build them. *)
Definition date_str (t : clock_time) : list ascii :=
  (list_ascii_of_string "20" ++ Monitor.c_string (Dec2s (year t))
   ++ ["-"%char] ++ Monitor.c_string (Dec2s (month t))
   ++ ["-"%char] ++ Monitor.c_string (Dec2s (day t)))%list.

Definition time_str (t : clock_time) : list ascii :=
  (Monitor.c_string (Dec2s (hour t))
   ++ [":"%char] ++ Monitor.c_string (Dec2s (minute t))
   ++ [":"%char] ++ Monitor.c_string (Dec2s (second t)))%list.

(** The number a decimal digit stands for, and the test for being one. *)
Definition digit_value (c : ascii) : Z := Z.of_nat (nat_of_ascii c) - 48.

Definition is_digit (c : ascii) : bool :=
  (48 <=? Z.of_nat (nat_of_ascii c)) && (Z.of_nat (nat_of_ascii c) <=? 57).

(** A register byte in binary coded decimal: both nibbles at most 9. *)
Definition bcd (n : Z) : Z := 16 * (n / 10) + n mod 10.

(** The registers at 23:59:58 on 31 December 2099 (a Thursday, day 5 of a
    week counted from Sunday), and what a bus without a clock on it
    delivers. *)
Definition end_of_century : registers :=
  {| reg_second := x58; reg_minute := x59; reg_hour := x23; reg_dayofweek := x05;
     reg_day := x31; reg_month := x12; reg_year := x99 |}.

Definition no_clock : registers :=
  {| reg_second := xff; reg_minute := xff; reg_hour := xff; reg_dayofweek := xff;
     reg_day := xff; reg_month := xff; reg_year := xff |}.

End Clock.

(** ** Runs of the sketch and what they leave behind *)

Module Runs.

Import Monitor.

(** Several calls of [loop] in a row, with all they put out. *)
Fixpoint run `{Libraries} (st : state) (ins : list loop_input)
    : option (state * list output) :=
  match ins with
  | [] => Some (st, [])
  | i :: ins =>
      match loop st i with
      | None => None
      | Some (st1, out) =>
          match run st1 ins with
          | None => None
          | Some (st2, out') => Some (st2, out ++ out')
          end
      end
  end.

(** The level of the relay pin after the outputs [out], when it was
    [level] before. *)
Definition relay_level (level : bool) (out : list output) : bool :=
  fold_left (fun l o => match o with RelayPin high => high | _ => l end) out level.

Definition is_relay_write (o : output) : bool :=
  match o with RelayPin _ => true | _ => false end.

(** The values a row of passes writes into the ring buffer of a channel. *)
Fixpoint feeds `{Libraries} (ch : channel) (st : state) (ins : list pass_input)
    : list Z :=
  match ins with
  | [] => []
  | i :: ins => fed ch st i :: feeds ch (fst (process st i)) ins
  end.

(** A record on its way to [ip]:[port]; a relay write has no address. *)
Definition addressed_to (ip : IPAddress) (port : Z) (o : output) : Prop :=
  match o with
  | RelayPin _ => True
  | SHW_TEMP ip' port' _ _ _ _ => ip' = ip /\ port' = port
  | SHW_FLOW ip' port' _ _ => ip' = ip /\ port' = port
  end.

(** The raw reading of a scratchpad as the signed 16-bit number the sensor
    means by it (one unit is a sixteenth of a degree). *)
Definition raw16 (data : scratchpad) : Z :=
  to_int (byte_val (data 1%nat) * 256 + byte_val (data 0%nat)).

(** The raw readings the range check of the reader lets through. *)
Definition accepted_raw (raw : Z) : bool :=
  ((-31537 <=? raw) && (raw <=? -29858))
  || ((-21051 <=? raw) && (raw <=? -19372))
  || ((-10565 <=? raw) && (raw <=? -8886))
  || ((-79 <=? raw) && (raw <=? 1599))
  || ((10406 <=? raw) && (raw <=? 12085))
  || ((20892 <=? raw) && (raw <=? 22571))
  || ((31378 <=? raw) && (raw <=? 32767)).

(** What of the state the measurements live in. *)
Definition measurements (st : state) :=
  (shw_ringbuf_offset st, shw_collector_temp_ringbuf st, shw_vat_temp_ringbuf st,
   last_avg_shw_collector_temp st, last_avg_shw_vat_temp st,
   last_shw_boost_state st,
   shw_hotwater_flowsensor_pulsecount st, shw_boost_pulsecount st,
   shw_hotwater_flowsensor_flow_rate st, shw_hotwater_flowsensor_flow_ml st,
   shw_hotwater_flowsensor_total_ml st, shw_hotwater_flowsensor_oldtime st).

End Runs.

(** * Properties *)

Import Float32 Monitor.

#[global] Arguments flow_rate : simpl never.
#[global] Arguments flow_ml : simpl never.
#[global] Arguments ringbuf_avg : simpl never.
#[global] Arguments sanitise : simpl never.
#[global] Arguments getSaneCurrentTemp : simpl never.
#[global] Arguments interrupts : simpl never.
#[global] Arguments process : simpl never.
#[global] Arguments receive : simpl never.

(** ** Machine integers *)

Lemma to_int_id (z : Z) : is_int z -> to_int z = z.
Proof.
  unfold is_int, INT_MIN, INT_MAX, to_int, wraps. intros Hz.
  change (2 ^ (16 - 1)) with 32768. change (2 ^ 16) with 65536.
  rewrite Z.mod_small; lia.
Qed.

Lemma to_long_id (z : Z) : -2147483648 <= z <= 2147483647 -> to_long z = z.
Proof.
  unfold to_long, wraps. intros Hz.
  change (2 ^ (32 - 1)) with 2147483648. change (2 ^ 32) with 4294967296.
  rewrite Z.mod_small; lia.
Qed.

Lemma to_uint_id (z : Z) : 0 <= z < 65536 -> to_uint z = z.
Proof. intros Hz. unfold to_uint, wrapu. change (2 ^ 16) with 65536. now apply Z.mod_small. Qed.

Lemma to_ulong_id (z : Z) : 0 <= z < 4294967296 -> to_ulong z = z.
Proof. intros Hz. unfold to_ulong, wrapu. change (2 ^ 32) with 4294967296. now apply Z.mod_small. Qed.

Lemma to_byte_id (z : Z) : 0 <= z < 256 -> to_byte z = z.
Proof. intros Hz. unfold to_byte, wrapu. change (2 ^ 8) with 256. now apply Z.mod_small. Qed.

Lemma to_ulong_range (z : Z) : 0 <= to_ulong z < 4294967296.
Proof. unfold to_ulong, wrapu. change (2 ^ 32) with 4294967296. apply Z.mod_pos_bound. lia. Qed.

Lemma in_range_spec (t : Z) : in_range t = true <-> -500 < t < 10000.
Proof. unfold in_range. rewrite andb_true_iff, !Z.ltb_lt. tauto. Qed.

(** ** The sensor reader *)

Section SensorReader.
Context `{Libraries}.

Lemma attempts_fail (bus : nat -> scratchpad) (temp : Z) (left i : nat) :
  (forall j, (i <= j < i + left)%nat -> attempt_ok (bus j) = false) ->
  attempts left i bus temp
  = {| rd_ret := 0; rd_temp := temp; rd_attempts := (i + left)%nat |}.
Proof.
  revert i. induction left as [|left IH]; intros i Hbad; simpl.
  - now rewrite Nat.add_0_r.
  - assert (Hi : attempt_ok (bus i) = false) by (apply Hbad; lia).
    assert (Hrest : attempts left (S i) bus temp
                    = {| rd_ret := 0; rd_temp := temp; rd_attempts := (i + S left)%nat |}).
    { rewrite IH; [f_equal; lia | intros j Hj; apply Hbad; lia]. }
    unfold attempt_ok in Hi. destruct (crc_ok (bus i)); simpl in *; [|exact Hrest].
    now rewrite Hi.
Qed.

Lemma attempts_first_ok (bus : nat -> scratchpad) (temp : Z) (left i k : nat) :
  (i <= k < i + left)%nat ->
  (forall j, (i <= j < k)%nat -> attempt_ok (bus j) = false) ->
  attempt_ok (bus k) = true ->
  attempts left i bus temp
  = {| rd_ret := 1; rd_temp := decode (bus k); rd_attempts := S k |}.
Proof.
  revert i. induction left as [|left IH]; intros i Hk Hbad Hok; [lia|].
  simpl. destruct (Nat.eq_dec i k) as [->|Hne].
  - unfold attempt_ok in Hok. apply andb_true_iff in Hok as [-> ->]. reflexivity.
  - assert (Hi : attempt_ok (bus i) = false) by (apply Hbad; lia).
    assert (Hrest : attempts left (S i) bus temp
                    = {| rd_ret := 1; rd_temp := decode (bus k); rd_attempts := S k |}).
    { apply IH; [lia | intros j Hj; apply Hbad; lia | exact Hok]. }
    unfold attempt_ok in Hi. destruct (crc_ok (bus i)); simpl in *; [|exact Hrest].
    now rewrite Hi.
Qed.

Lemma attempts_count (bus : nat -> scratchpad) (temp : Z) (left i : nat) :
  (i <= rd_attempts (attempts left i bus temp) <= i + left)%nat
  /\ (0 < left -> i < rd_attempts (attempts left i bus temp))%nat.
Proof.
  revert i. induction left as [|left IH]; intros i; simpl; [lia|].
  destruct (IH (S i)) as [IH1 IH2].
  destruct (crc_ok (bus i)); simpl; [|lia].
  destruct (in_range (decode (bus i))); simpl; lia.
Qed.

(** The outcome of a call is one of two: success with a reading that
    passed the range check, or failure with [*temp] as it was. *)
Lemma attempts_outcome (bus : nat -> scratchpad) (temp : Z) (left i : nat) :
  let r := attempts left i bus temp in
  (rd_ret r = 1 /\ in_range (rd_temp r) = true) \/ (rd_ret r = 0 /\ rd_temp r = temp).
Proof.
  revert i. induction left as [|left IH]; intros i; simpl; [now right|].
  destruct (crc_ok (bus i)); simpl; [|apply IH].
  destruct (in_range (decode (bus i))) eqn:E; simpl; [now left | apply IH].
Qed.

End SensorReader.

(** ** The sanity filter *)

(** On readings whose difference fits an [int] the filter is the clamp of
    the reading to within 100 of the last average. *)
Lemma sanitise_spec (r a : Z) :
  is_int r -> is_int a -> is_int (r - a) ->
  Z.abs (sanitise r a - a) <= 100
  /\ (Z.abs (r - a) <= 100 -> sanitise r a = r)
  /\ (100 < r - a -> sanitise r a = a + 100)
  /\ (r - a < -100 -> sanitise r a = a - 100).
Proof.
  intros Hr Ha Hd. unfold sanitise. rewrite (to_int_id (r - a)) by exact Hd.
  unfold is_int, INT_MIN, INT_MAX in *.
  destruct (Z.ltb_spec 100 (r - a)) as [Hhi|Hhi].
  - rewrite to_int_id by (unfold is_int, INT_MIN, INT_MAX; lia). lia.
  - destruct (Z.ltb_spec (r - a) (-100)) as [Hlo|Hlo].
    + rewrite to_int_id by (unfold is_int, INT_MIN, INT_MAX; lia). lia.
    + lia.
Qed.

Lemma sanitise_same (a : Z) : sanitise a a = a.
Proof. unfold sanitise. now rewrite Z.sub_diag. Qed.

(** A sane reading filtered against a sane average lies between the two. *)
Lemma sanitise_between (r a : Z) :
  -500 < r < 10000 -> -500 < a < 10000 ->
  Z.min r a <= sanitise r a <= Z.max r a.
Proof.
  intros Hr Ha.
  destruct (sanitise_spec r a) as (_ & Hid & Hhi & Hlo);
    unfold is_int, INT_MIN, INT_MAX; lia.
Qed.

(** ** The averaging ring buffer *)

Ltac ten_slots buf Hlen :=
  do 10 (destruct buf as [|? buf]; [discriminate Hlen|]);
  destruct buf; [clear Hlen | discriminate Hlen].

Lemma ringbuf_sum_total (buf : list Z) :
  length buf = SHW_RINGBUF_NUM_ITEMS -> Forall is_int buf ->
  ringbuf_sum buf = total buf.
Proof.
  intros Hlen Hint. ten_slots buf Hlen.
  repeat match goal with
         | H : Forall _ (_ :: _) |- _ => apply Forall_cons in H as [? H]
         end.
  unfold ringbuf_sum, total, is_int, INT_MIN, INT_MAX in *. simpl.
  repeat match goal with
         | |- context [to_long ?x] =>
             lazymatch x with
             | context [to_long _] => fail
             | _ => rewrite (to_long_id x) by lia
             end
         end.
  lia.
Qed.

Lemma ringbuf_avg_total (buf : list Z) :
  length buf = SHW_RINGBUF_NUM_ITEMS -> Forall is_int buf ->
  ringbuf_avg buf = Z.quot (total buf) 10.
Proof.
  intros Hlen Hint. unfold ringbuf_avg. rewrite ringbuf_sum_total by assumption.
  change (Z.of_nat SHW_RINGBUF_NUM_ITEMS) with 10.
  assert (Hb : -327680 <= total buf <= 327670).
  { ten_slots buf Hlen.
    repeat match goal with
           | H : Forall _ (_ :: _) |- _ => apply Forall_cons in H as [? H]
           end.
    unfold total, is_int, INT_MIN, INT_MAX in *. simpl. lia. }
  apply to_long_id.
  destruct (Z_lt_le_dec (total buf) 0) as [Hneg|Hpos].
  - pose proof (Z.quot_le_upper_bound (- total buf) 10 327680).
    rewrite <- (Z.opp_involutive (total buf)), Z.quot_opp_l by lia.
    pose proof (Z.quot_pos (- total buf) 10). lia.
  - pose proof (Z.quot_pos (total buf) 10).
    pose proof (Z.quot_le_upper_bound (total buf) 10 327670). lia.
Qed.

Lemma sane_is_int (buf : list Z) : Forall sane buf -> Forall is_int buf.
Proof.
  intros Hs. eapply Forall_impl; [exact Hs|].
  unfold sane, is_int, INT_MIN, INT_MAX. intros; lia.
Qed.

(** The truncated mean of values between [lo] and [hi] lies between them. *)
Lemma quot_mean_bounds (s lo hi : Z) :
  10 * lo <= s <= 10 * hi -> lo <= Z.quot s 10 <= hi.
Proof.
  intros Hs. pose proof (Z.quot_rem' s 10) as Hqr.
  destruct (Z_lt_le_dec s 0) as [Hneg|Hpos].
  - pose proof (Z.rem_bound_pos_neg s 10). lia.
  - pose proof (Z.rem_bound_pos s 10). lia.
Qed.

Lemma total_bounds (buf : list Z) (lo hi : Z) :
  Forall (fun t => lo <= t <= hi) buf ->
  Z.of_nat (length buf) * lo <= total buf <= Z.of_nat (length buf) * hi.
Proof.
  induction 1 as [|t buf Ht _ IH]; simpl; [lia|].
  unfold total in *. simpl. lia.
Qed.

Lemma ringbuf_avg_sane (buf : list Z) :
  length buf = SHW_RINGBUF_NUM_ITEMS -> Forall sane buf -> sane (ringbuf_avg buf).
Proof.
  intros Hlen Hsane. rewrite ringbuf_avg_total by auto using sane_is_int.
  pose proof (total_bounds buf (-499) 9999) as Hb. rewrite Hlen in Hb.
  change (Z.of_nat SHW_RINGBUF_NUM_ITEMS) with 10 in Hb.
  assert (Hq : -499 <= Z.quot (total buf) 10 <= 9999).
  { apply quot_mean_bounds, Hb. eapply Forall_impl; [exact Hsane|].
    unfold sane. intros; lia. }
  unfold sane. lia.
Qed.

(** Ten equal slots average to their common value. *)
Lemma ringbuf_avg_replicate (v : Z) :
  is_int v -> ringbuf_avg (replicate SHW_RINGBUF_NUM_ITEMS v) = v.
Proof.
  intros Hv. rewrite ringbuf_avg_total.
  - unfold total. simpl. replace (v + (v + (v + (v + (v + (v + (v + (v + (v + (v + 0))))))))))
      with (v * 10) by lia. apply Z.quot_mul. lia.
  - apply length_replicate.
  - apply Forall_replicate. exact Hv.
Qed.

Lemma ringbuf_advance_spec (offset : Z) :
  0 <= offset < 10 -> ringbuf_advance offset = (offset + 1) mod 10.
Proof.
  intros Ho. unfold ringbuf_advance. change (Z.of_nat SHW_RINGBUF_NUM_ITEMS) with 10.
  rewrite (to_byte_id (offset + 1)) by lia.
  apply to_byte_id. pose proof (Z.mod_pos_bound (offset + 1) 10). lia.
Qed.

(** ** What a pass leaves in the state *)

Section PassFields.
Context `{Libraries}.
Variables (st : state) (i : pass_input).

Lemma process_offset :
  shw_ringbuf_offset (fst (process st i)) = ringbuf_advance (shw_ringbuf_offset st).
Proof. reflexivity. Qed.

Lemma process_ringbuf (ch : channel) :
  ringbuf ch (fst (process st i))
  = ringbuf_write (ringbuf ch st) (shw_ringbuf_offset st) (fed ch st i).
Proof. destruct ch; reflexivity. Qed.

Lemma process_boost :
  (shw_boost_state (fst (process st i)), shw_boost_override (fst (process st i)))
  = boost_logic (avg_shw_vat_temp st i) (hour i)
      (shw_boost_state st) (shw_boost_override st).
Proof.
  unfold process. cbn [fst shw_boost_state shw_boost_override].
  unfold boost_after. now destruct (boost_logic _ _ _ _).
Qed.

Lemma process_firsttime : firsttime (fst (process st i)) = false.
Proof. reflexivity. Qed.

Lemma process_udp :
  remoteIP (fst (process st i)) = remoteIP st
  /\ remotePort (fst (process st i)) = remotePort st
  /\ haveremoteudp (fst (process st i)) = haveremoteudp st.
Proof. repeat split. Qed.

Lemma process_flow :
  shw_hotwater_flowsensor_flow_rate (fst (process st i))
  = flow_rate (elapsed_ms st i) (flow_pulses st i)
  /\ shw_hotwater_flowsensor_flow_ml (fst (process st i))
     = flow_ml (flow_rate (elapsed_ms st i) (flow_pulses st i))
  /\ shw_hotwater_flowsensor_total_ml (fst (process st i))
     = to_ulong (shw_hotwater_flowsensor_total_ml st
                 + flow_ml (flow_rate (elapsed_ms st i) (flow_pulses st i)))
  /\ shw_hotwater_flowsensor_oldtime (fst (process st i)) = to_ulong (millis_mark i)
  /\ shw_hotwater_flowsensor_pulsecount (fst (process st i)) = 0
  /\ shw_boost_pulsecount (fst (process st i)) = 0.
Proof. repeat split. Qed.

Lemma process_last_avg_report (ch : channel) :
  last_avg ch (fst (process st i))
  = if temp_report st i then to_int (smoothed ch st i) else last_avg ch st.
Proof.
  destruct ch; unfold process, smoothed, last_avg;
    cbn [fst last_avg_shw_collector_temp last_avg_shw_vat_temp]; reflexivity.
Qed.

Lemma temp_report_false :
  temp_report st i = false -> forall ch, smoothed ch st i = last_avg ch st.
Proof.
  unfold temp_report. intros Hreport.
  repeat (apply orb_false_iff in Hreport as [Hreport ?]).
  repeat match goal with
         | E : negb (_ =? _) = false |- _ => apply negb_false_iff, Z.eqb_eq in E
         end.
  intros []; unfold smoothed, last_avg; assumption.
Qed.

(** The stored average is refreshed whenever the record is sent, and the
    record is sent whenever the average moved. *)
Lemma process_last_avg (ch : channel) :
  is_int (smoothed ch st i) ->
  last_avg ch (fst (process st i)) = smoothed ch st i.
Proof.
  intros Hint. rewrite process_last_avg_report.
  destruct (temp_report st i) eqn:Hreport.
  - now apply to_int_id.
  - symmetry. now apply temp_report_false.
Qed.

End PassFields.

(** ** The invariant *)

Lemma invariant_spec (st : state) :
  invariant st = true <->
  0 <= shw_ringbuf_offset st < 10
  /\ (forall ch, length (ringbuf ch st) = SHW_RINGBUF_NUM_ITEMS)
  /\ (forall ch, Forall sane (ringbuf ch st))
  /\ (forall ch, last_avg ch st = ringbuf_avg (ringbuf ch st)).
Proof.
  unfold invariant. rewrite !andb_true_iff, Z.leb_le, Z.ltb_lt, !Nat.eqb_eq, !Z.eqb_eq.
  change (Z.of_nat SHW_RINGBUF_NUM_ITEMS) with 10.
  assert (Hall : forall l, forallb in_range l = true <-> Forall sane l).
  { intros l. rewrite forallb_forall, Forall_forall.
    split; intros Hl x Hx; apply in_range_spec, Hl; [apply list_elem_of_In|apply list_elem_of_In in Hx]; exact Hx. }
  rewrite !Hall. split.
  - intros (((((((? & ?) & ?) & ?) & ?) & ?) & ?) & ?).
    split; [lia|]. split; [|split]; intros []; unfold ringbuf, last_avg; assumption.
  - intros (? & Hlen & Hsane & Havg).
    pose proof (Hlen Collector). pose proof (Hlen Vat).
    pose proof (Hsane Collector). pose proof (Hsane Vat).
    pose proof (Havg Collector). pose proof (Havg Vat).
    unfold ringbuf, last_avg in *. intuition lia.
Qed.

Section Invariant.
Context `{Libraries}.

Lemma last_avg_sane (st : state) (ch : channel) :
  invariant st = true -> sane (last_avg ch st).
Proof.
  intros (_ & Hlen & Hsane & Havg)%invariant_spec.
  rewrite Havg. now apply ringbuf_avg_sane.
Qed.

Lemma raw_sample_sane (st : state) (i : pass_input) (ch : channel) :
  invariant st = true -> sane (raw_sample ch st i).
Proof.
  intros Hinv. pose proof (last_avg_sane st ch Hinv) as Ha.
  unfold raw_sample.
  assert (Hout : forall bus, sane (rd_temp (getSaneCurrentTemp bus (last_avg ch st)))).
  { intros bus. unfold getSaneCurrentTemp.
    destruct (attempts_outcome bus (last_avg ch st) 5 0) as [[_ Hin]|[_ ->]];
      [now apply in_range_spec | exact Ha]. }
  destruct ch; apply Hout.
Qed.

Lemma fed_sanitise (st : state) (i : pass_input) (ch : channel) :
  fed ch st i = sanitise (raw_sample ch st i) (last_avg ch st).
Proof. now destruct ch. Qed.

Lemma fed_sane (st : state) (i : pass_input) (ch : channel) :
  invariant st = true -> sane (fed ch st i).
Proof.
  intros Hinv. rewrite fed_sanitise.
  pose proof (raw_sample_sane st i ch Hinv) as Hr.
  pose proof (last_avg_sane st ch Hinv) as Ha.
  pose proof (sanitise_between _ _ Hr Ha). unfold sane in *. lia.
Qed.

Lemma smoothed_ringbuf (st : state) (i : pass_input) (ch : channel) :
  smoothed ch st i = ringbuf_avg (ringbuf ch (fst (process st i))).
Proof. rewrite process_ringbuf. now destruct ch. Qed.

Lemma process_invariant (st : state) (i : pass_input) :
  invariant st = true -> invariant (fst (process st i)) = true.
Proof.
  intros Hinv. pose proof Hinv as (Hoff & Hlen & Hsane & Havg)%invariant_spec.
  assert (Hlen' : forall ch, length (ringbuf ch (fst (process st i))) = SHW_RINGBUF_NUM_ITEMS).
  { intros ch. rewrite process_ringbuf. unfold ringbuf_write.
    rewrite length_insert. apply Hlen. }
  assert (Hsane' : forall ch, Forall sane (ringbuf ch (fst (process st i)))).
  { intros ch. rewrite process_ringbuf. unfold ringbuf_write.
    apply Forall_insert; [apply Hsane | now apply fed_sane]. }
  apply invariant_spec. split; [|split; [exact Hlen'|split; [exact Hsane'|]]].
  - rewrite process_offset, ringbuf_advance_spec by exact Hoff.
    pose proof (Z.mod_pos_bound (shw_ringbuf_offset st + 1) 10). lia.
  - intros ch. rewrite <- smoothed_ringbuf. apply process_last_avg.
    rewrite smoothed_ringbuf.
    pose proof (ringbuf_avg_sane _ (Hlen' ch) (Hsane' ch)).
    unfold sane, is_int, INT_MIN, INT_MAX in *. lia.
Qed.

Lemma setup_invariant (i : setup_input) : invariant (setup i) = true.
Proof.
  assert (Hout : forall bus, sane (rd_temp (getSaneCurrentTemp bus 0))).
  { intros bus. unfold getSaneCurrentTemp.
    destruct (attempts_outcome bus 0 5 0) as [[_ Hin]|[_ ->]];
      [now apply in_range_spec | unfold sane; lia]. }
  assert (Hint : forall bus, is_int (rd_temp (getSaneCurrentTemp bus 0))).
  { intros bus. pose proof (Hout bus). unfold sane, is_int, INT_MIN, INT_MAX in *. lia. }
  apply invariant_spec. unfold setup.
  split; [cbn [shw_ringbuf_offset]; lia|].
  split; [|split]; intros [];
    cbn [ringbuf last_avg shw_collector_temp_ringbuf shw_vat_temp_ringbuf
         last_avg_shw_collector_temp last_avg_shw_vat_temp].
  - apply length_replicate.
  - apply length_replicate.
  - apply Forall_replicate, Hout.
  - apply Forall_replicate, Hout.
  - symmetry. apply ringbuf_avg_replicate, Hint.
  - symmetry. apply ringbuf_avg_replicate, Hint.
Qed.

Lemma receive_temperature (st st' : state) (d : datagram) (stk : nat -> ascii) :
  receive st d stk = Some st' ->
  shw_ringbuf_offset st' = shw_ringbuf_offset st
  /\ (forall ch, ringbuf ch st' = ringbuf ch st)
  /\ (forall ch, last_avg ch st' = last_avg ch st).
Proof.
  unfold receive. destruct (store _ _ _); [|discriminate].
  destruct (strcmp _ _ =? 0); [|destruct (strcmp _ _ =? 0)];
    intros [= <-]; simpl; (split; [reflexivity|split; intros []; reflexivity]).
Qed.

Lemma receive_invariant (st st' : state) (d : datagram) (stk : nat -> ascii) :
  receive st d stk = Some st' -> invariant st = true -> invariant st' = true.
Proof.
  intros (Hoff & Hbuf & Havg)%receive_temperature.
  rewrite !invariant_spec. rewrite Hoff.
  intros (? & Hlen & Hsane & Hmean). split; [assumption|]. split; [|split].
  - intros ch. rewrite Hbuf. apply Hlen.
  - intros ch. rewrite Hbuf. apply Hsane.
  - intros ch. rewrite Hbuf, Havg. apply Hmean.
Qed.

Lemma loop_invariant (st st' : state) (i : loop_input) (out : list output) :
  loop st i = Some (st', out) -> invariant st = true -> invariant st' = true.
Proof.
  unfold loop, poll. intros Hloop Hinv.
  set (r := if gate (millis_gate i) st then process st (pass i) else (st, [])) in *.
  assert (Hr : invariant (fst r) = true).
  { subst r. destruct (gate _ _); [now apply process_invariant | exact Hinv]. }
  destruct (parsePacket (inbound i) =? 0);
    [injection Hloop as Hloop; now rewrite Hloop in Hr|].
  destruct (inbound i) as [d|]; [|injection Hloop as Hloop; now rewrite Hloop in Hr].
  destruct (receive (fst r) d (stack i)) as [st1|] eqn:Hrecv; [|discriminate].
  injection Hloop as <- _. eapply receive_invariant; eassumption.
Qed.

(** Every state the sketch can reach satisfies the invariant. *)
Lemma reachable_invariant (st : state) : reachable st -> invariant st = true.
Proof.
  induction 1 as [i|st st' i out _ IH Hloop].
  - apply setup_invariant.
  - eapply loop_invariant; eassumption.
Qed.

Lemma passes_invariant (ins : list pass_input) (st : state) :
  invariant st = true -> invariant (passes st ins) = true.
Proof.
  revert st. induction ins as [|i ins IH]; intros st Hinv; cbn [passes]; [exact Hinv|].
  apply IH, process_invariant, Hinv.
Qed.

End Invariant.

(** ** Single-precision rounding

    Facts about [SpecFloat]'s rounding at binary32 that the flow section
    needs: the conversion of a positive integer and the quotient of 1000.0
    by it are never a NaN, a zero divisor or an overflow. *)

Lemma digits_lower (p : positive) : 2 ^ (Z.pos (digits2_pos p) - 1) <= Z.pos p.
Proof.
  induction p as [p IH|p IH|]; cbn [digits2_pos].
  - rewrite Pos2Z.inj_succ. replace (Z.succ (Z.pos (digits2_pos p)) - 1)
      with (Z.succ (Z.pos (digits2_pos p) - 1)) by lia.
    rewrite Z.pow_succ_r by lia. lia.
  - rewrite Pos2Z.inj_succ. replace (Z.succ (Z.pos (digits2_pos p)) - 1)
      with (Z.succ (Z.pos (digits2_pos p) - 1)) by lia.
    rewrite Z.pow_succ_r by lia. lia.
  - reflexivity.
Qed.

Lemma digits_upper (p : positive) (a : Z) :
  0 <= a -> Z.pos p < 2 ^ a -> Z.pos (digits2_pos p) <= a.
Proof.
  intros Ha Hp. pose proof (digits_lower p) as Hlo.
  destruct (Z_le_gt_dec (Z.pos (digits2_pos p)) a) as [|Hgt]; [assumption|exfalso].
  assert (2 ^ a <= 2 ^ (Z.pos (digits2_pos p) - 1)) by (apply Z.pow_le_mono_r; lia).
  lia.
Qed.

(** Shifting a record right by one halves its mantissa. *)
Lemma shr_1_m (mrs : shr_record) :
  0 <= shr_m mrs -> shr_m (shr_1 mrs) = shr_m mrs / 2.
Proof.
  destruct mrs as [m r s]. cbn [shr_m]. intros Hm.
  destruct m as [|[p|p|]|p]; cbn [shr_1 shr_m].
  - reflexivity.
  - apply Z.div_unique with 1; lia.
  - apply Z.div_unique with 0; lia.
  - reflexivity.
  - lia.
Qed.

Lemma iter_shr_1_m (n : positive) (mrs : shr_record) :
  0 <= shr_m mrs -> shr_m (SpecFloat.iter_pos shr_1 n mrs) = shr_m mrs / 2 ^ Z.pos n.
Proof.
  assert (Hpow : forall k, 0 < 2 ^ Z.pos k) by (intros k; apply Z.pow_pos_nonneg; lia).
  revert mrs. induction n as [n IH|n IH|]; intros mrs Hm; cbn [SpecFloat.iter_pos].
  - assert (H1 : 0 <= shr_m (shr_1 mrs)) by (rewrite shr_1_m by lia; apply Z.div_pos; lia).
    assert (H2 : 0 <= shr_m (SpecFloat.iter_pos shr_1 n (shr_1 mrs)))
      by (rewrite IH by lia; apply Z.div_pos; [lia | apply Hpow]).
    rewrite IH by lia. rewrite IH by lia. rewrite shr_1_m by lia.
    pose proof (Hpow n).
    rewrite !Z.div_div by lia.
    f_equal. replace (Z.pos n~1) with (1 + Z.pos n + Z.pos n) by lia.
    rewrite !Z.pow_add_r by lia. lia.
  - assert (H2 : 0 <= shr_m (SpecFloat.iter_pos shr_1 n mrs))
      by (rewrite IH by lia; apply Z.div_pos; [lia | apply Hpow]).
    rewrite IH by lia. rewrite IH by lia. pose proof (Hpow n).
    rewrite !Z.div_div by lia.
    f_equal. replace (Z.pos n~0) with (Z.pos n + Z.pos n) by lia.
    rewrite !Z.pow_add_r by lia. lia.
  - apply shr_1_m, Hm.
Qed.

(** [shr_fexp] on a non-negative mantissa: the exponent it settles on and
    the mantissa it leaves. *)
Lemma shr_fexp_spec (m e : Z) (l : location) :
  0 <= m ->
  let e' := Z.max e (fexp prec emax (Zdigits2 m + e)) in
  snd (shr_fexp prec emax m e l) = e'
  /\ shr_m (fst (shr_fexp prec emax m e l)) = m / 2 ^ (e' - e).
Proof.
  intros Hm e'. unfold shr_fexp, shr.
  assert (Hrec : shr_m (shr_record_of_loc m l) = m) by (destruct l as [|[]]; reflexivity).
  subst e'. destruct (fexp prec emax (Zdigits2 m + e) - e) as [|n|n] eqn:Hn; cbn [fst snd].
  - replace (Z.max e (fexp prec emax (Zdigits2 m + e))) with e by lia.
    rewrite Z.sub_diag, Z.div_1_r. auto.
  - replace (Z.max e (fexp prec emax (Zdigits2 m + e))) with (e + Z.pos n) by lia.
    split; [reflexivity|]. rewrite iter_shr_1_m by (rewrite Hrec; exact Hm).
    rewrite Hrec. f_equal. f_equal. lia.
  - replace (Z.max e (fexp prec emax (Zdigits2 m + e))) with e by lia.
    rewrite Z.sub_diag, Z.div_1_r. auto.
Qed.

Lemma round_nearest_even_bounds (x : Z) (l : location) :
  x <= round_nearest_even x l <= x + 1.
Proof.
  unfold round_nearest_even. destruct l as [|[]]; try lia. destruct (Z.even x); lia.
Qed.

(** The two stages of [binary_round_aux] on a non-negative mantissa. *)
Lemma binary_round_aux_stages (s : bool) (m e : Z) (l : location) :
  0 <= m ->
  exists r : Z,
    let e1 := Z.max e (fexp prec emax (Zdigits2 m + e)) in
    let e2 := Z.max e1 (fexp prec emax (Zdigits2 r + e1)) in
    m / 2 ^ (e1 - e) <= r <= m / 2 ^ (e1 - e) + 1
    /\ binary_round_aux prec emax s m e l
       = match r / 2 ^ (e2 - e1) with
         | 0 => S754_zero s
         | Z.pos p => if e2 <=? emax - prec then S754_finite s p e2 else S754_infinity s
         | Z.neg _ => S754_nan
         end.
Proof.
  intros Hm. unfold binary_round_aux.
  destruct (shr_fexp_spec m e l Hm) as [He1 Hm1]. cbv zeta in He1, Hm1.
  destruct (shr_fexp prec emax m e l) as [mrs1 e1]. cbn [fst snd] in He1, Hm1.
  subst e1. set (e1 := Z.max e (fexp prec emax (Zdigits2 m + e))) in *.
  set (r := round_nearest_even (shr_m mrs1) (loc_of_shr_record mrs1)).
  exists r. cbv zeta.
  pose proof (round_nearest_even_bounds (shr_m mrs1) (loc_of_shr_record mrs1)) as Hr.
  fold r in Hr. rewrite Hm1 in Hr. split; [exact Hr|].
  assert (Hr0 : 0 <= r).
  { assert (0 <= m / 2 ^ (e1 - e)); [|lia].
    apply Z.div_pos; [lia | apply Z.pow_pos_nonneg; lia]. }
  destruct (shr_fexp_spec r e1 loc_Exact Hr0) as [He2 Hm2]. cbv zeta in He2, Hm2.
  destruct (shr_fexp prec emax r e1 loc_Exact) as [mrs2 e2]. cbn [fst snd] in He2, Hm2.
  rewrite Hm2, He2. reflexivity.
Qed.

(** What is left of a positive mantissa after the shift: at least one. *)
Lemma shifted_positive (x e : Z) :
  0 < x -> -149 <= e ->
  0 < x / 2 ^ (Z.max e (fexp prec emax (Zdigits2 x + e)) - e).
Proof.
  intros Hx He. destruct x as [|p|p]; try lia. cbn [Zdigits2].
  pose proof (digits_lower p) as Hlo. set (D := Z.pos (digits2_pos p)) in *.
  assert (HD : 1 <= D) by (subst D; lia).
  unfold fexp, SpecFloat.emin, prec, emax.
  destruct (Z_le_gt_dec D 24) as [Hsmall|Hbig].
  - replace (Z.max e (Z.max (D + e - 24) (3 - 128 - 24)) - e) with 0 by lia.
    rewrite Z.div_1_r. lia.
  - replace (Z.max e (Z.max (D + e - 24) (3 - 128 - 24)) - e) with (D - 24) by lia.
    assert (Hsplit : 2 ^ (D - 1) = 2 ^ (D - 24) * 2 ^ 23).
    { rewrite <- Z.pow_add_r by lia. f_equal. lia. }
    assert (Hpos : 0 < 2 ^ (D - 24)) by (apply Z.pow_pos_nonneg; lia).
    assert (2 ^ 23 <= Z.pos p / 2 ^ (D - 24)).
    { apply Z.div_le_lower_bound; [exact Hpos|]. lia. }
    assert (0 < 2 ^ 23) by reflexivity. lia.
Qed.

(** Rounding never yields a NaN, and keeps the sign and at least the
    exponent it was given. *)
Lemma binary_round_aux_cases (s : bool) (m e : Z) (l : location) :
  0 <= m ->
  binary_round_aux prec emax s m e l = S754_zero s
  \/ binary_round_aux prec emax s m e l = S754_infinity s
  \/ exists p e2, e <= e2 /\ binary_round_aux prec emax s m e l = S754_finite s p e2.
Proof.
  intros Hm. destruct (binary_round_aux_stages s m e l Hm) as (r & Hr & ->). cbv zeta in *.
  set (e1 := Z.max e (fexp prec emax (Zdigits2 m + e))) in *.
  set (e2 := Z.max e1 (fexp prec emax (Zdigits2 r + e1))) in *.
  assert (Hr0 : 0 <= r).
  { assert (0 <= m / 2 ^ (e1 - e)); [|lia].
    apply Z.div_pos; [lia | apply Z.pow_pos_nonneg; lia]. }
  assert (Hq : 0 <= r / 2 ^ (e2 - e1))
    by (apply Z.div_pos; [lia | apply Z.pow_pos_nonneg; lia]).
  destruct (r / 2 ^ (e2 - e1)) as [|p|p]; [now left| |lia].
  destruct (e2 <=? emax - prec); [|now right; left].
  right; right. exists p, e2. split; [lia | reflexivity].
Qed.

(** A positive mantissa with an exponent in range is not rounded to zero. *)
Lemma binary_round_aux_nonzero (s : bool) (m e : Z) (l : location) :
  0 < m -> -149 <= e ->
  binary_round_aux prec emax s m e l <> S754_zero s.
Proof.
  intros Hm He. destruct (binary_round_aux_stages s m e l) as (r & Hr & ->); [lia|].
  cbv zeta in *.
  set (e1 := Z.max e (fexp prec emax (Zdigits2 m + e))) in *.
  pose proof (shifted_positive m e Hm He) as H1. fold e1 in H1.
  assert (Hr0 : 0 < r) by lia.
  assert (He1 : -149 <= e1) by lia.
  pose proof (shifted_positive r e1 Hr0 He1) as H2.
  destruct (r / 2 ^ (Z.max e1 (fexp prec emax (Zdigits2 r + e1)) - e1)) as [|p|p]; try lia.
  destruct (_ <=? _); discriminate.
Qed.

Lemma Zdigits2_upper (x a : Z) : 0 <= x < 2 ^ a -> 0 <= a -> Zdigits2 x <= a.
Proof.
  intros Hx Ha. destruct x as [|p|p]; cbn [Zdigits2]; try lia.
  apply digits_upper; lia.
Qed.

(** A mantissa below [2 ^ (127 - e)] is not rounded to an infinity. *)
Lemma binary_round_aux_finite (s : bool) (m e : Z) (l : location) :
  0 <= m < 2 ^ (127 - e) -> e <= 104 ->
  binary_round_aux prec emax s m e l <> S754_infinity s.
Proof.
  intros Hm He. destruct (binary_round_aux_stages s m e l) as (r & Hr & ->); [lia|].
  cbv zeta in *.
  pose proof (Zdigits2_upper m (127 - e) Hm ltac:(lia)) as Hd.
  set (e1 := Z.max e (fexp prec emax (Zdigits2 m + e))) in *.
  assert (He1 : e <= e1 <= 104).
  { subst e1. unfold fexp, SpecFloat.emin, prec, emax. lia. }
  assert (Hpos : 0 < 2 ^ (e1 - e)) by (apply Z.pow_pos_nonneg; lia).
  assert (Hm1 : 0 <= m / 2 ^ (e1 - e) < 2 ^ (127 - e1)).
  { split; [apply Z.div_pos; lia|].
    apply Z.div_lt_upper_bound; [exact Hpos|].
    rewrite <- Z.pow_add_r by lia. replace (e1 - e + (127 - e1)) with (127 - e) by lia. lia. }
  assert (Hr1 : 0 <= r < 2 ^ (128 - e1)).
  { replace (128 - e1) with (Z.succ (127 - e1)) by lia. rewrite Z.pow_succ_r by lia. lia. }
  pose proof (Zdigits2_upper r (128 - e1) Hr1 ltac:(lia)) as Hdr.
  set (e2 := Z.max e1 (fexp prec emax (Zdigits2 r + e1))) in *.
  assert (He2 : e2 <= 104).
  { subst e2. unfold fexp, SpecFloat.emin, prec, emax. lia. }
  destruct (r / 2 ^ (e2 - e1)) as [|p|p]; try discriminate.
  unfold emax, prec. destruct (Z.leb_spec e2 (128 - 24)); [discriminate | lia].
Qed.

(** A positive integer converts to a positive float whose exponent is at
    least -23, or to plus infinity. *)
Lemma of_Z_positive (z : Z) :
  0 < z ->
  of_Z z = S754_infinity false
  \/ exists p e, -23 <= e /\ of_Z z = S754_finite false p e.
Proof.
  intros Hz. destruct z as [|p|p]; try lia. clear Hz.
  unfold of_Z, binary_normalize, binary_round.
  set (ex := fexp prec emax (Z.pos (digits2_pos p) + 0)).
  assert (Hex : -23 <= ex).
  { subst ex. unfold fexp, SpecFloat.emin, prec, emax.
    pose proof (Pos2Z.is_pos (digits2_pos p)). lia. }
  assert (Halign : exists mz ez, shl_align p 0 ex = (mz, ez) /\ -23 <= ez).
  { unfold shl_align. destruct (ex - 0) eqn:Hd; eauto with lia. }
  destruct Halign as (mz & ez & -> & Hez).
  pose proof (binary_round_aux_nonzero false (Z.pos mz) ez loc_Exact ltac:(lia) ltac:(lia)) as Hnz.
  destruct (binary_round_aux_cases false (Z.pos mz) ez loc_Exact ltac:(lia))
    as [Hzero|[Hinf|(q & e2 & He2 & Hfin)]].
  - contradiction.
  - now left.
  - right. exists q, e2. split; [lia | exact Hfin].
Qed.

(** 1000.0 divided by a positive float whose exponent is at least -23 is a
    positive float or plus zero. *)
Lemma div_1000_finite (p : positive) (e : Z) :
  -23 <= e ->
  div (of_Z 1000) (S754_finite false p e) = S754_zero false
  \/ exists q e', div (of_Z 1000) (S754_finite false p e) = S754_finite false q e'.
Proof.
  intros He.
  change (of_Z 1000) with (S754_finite false 16384000 (-14)).
  unfold div, SFdiv, SFdiv_core_binary. cbn [xorb].
  change (Zdigits2 (Z.pos 16384000)) with 24.
  set (e' := Z.min (fexp prec emax (24 + -14 - (Zdigits2 (Z.pos p) + e))) (-14 - e)).
  set (m' := match -14 - e - e' with
             | 0 => Z.pos 16384000
             | Z.pos _ => Z.shiftl (Z.pos 16384000) (-14 - e - e')
             | Z.neg _ => 0
             end).
  assert (He' : e' <= -14 - e) by (subst e'; lia).
  assert (Hm' : 0 <= m' < 2 ^ (24 + (-14 - e - e'))).
  { subst m'. destruct (-14 - e - e') as [|s|s] eqn:Hs; [| |lia].
    - split; [lia | reflexivity].
    - rewrite Z.shiftl_mul_pow2 by lia. rewrite Z.pow_add_r by lia.
      assert (0 < 2 ^ Z.pos s) by (apply Z.pow_pos_nonneg; lia).
      assert (Z.pos 16384000 < 2 ^ 24) by reflexivity. nia. }
  destruct (Z.div_eucl m' (Z.pos p)) as [q r] eqn:Hqr.
  assert (Hq : q = m' / Z.pos p) by (unfold Z.div; now rewrite Hqr).
  assert (Hq0 : 0 <= q <= m').
  { rewrite Hq. split; [apply Z.div_pos; lia|].
    apply Z.div_le_upper_bound; [lia|]. nia. }
  assert (Hbound : 0 <= q < 2 ^ (127 - e')).
  { split; [lia|]. apply Z.le_lt_trans with m'; [lia|].
    apply Z.lt_le_trans with (2 ^ (24 + (-14 - e - e'))); [lia|].
    apply Z.pow_le_mono_r; lia. }
  pose proof (binary_round_aux_finite false q e' (new_location (Z.pos p) r) Hbound ltac:(lia))
    as Hfin.
  destruct (binary_round_aux_cases false q e' (new_location (Z.pos p) r) ltac:(lia))
    as [Hzero|[Hinf|(q' & e2 & _ & Hq')]].
  - now left.
  - contradiction.
  - right. eauto.
Qed.

(** No pulses, no flow: whatever the (non-zero) time since the last pass,
    the rate is plus zero and so is the volume. *)
Lemma flow_rate_no_pulses (elapsed : Z) :
  0 < elapsed -> flow_rate elapsed 0 = S754_zero false.
Proof.
  intros Hel. unfold flow_rate.
  assert (Hq : div (of_Z 1000) (of_Z elapsed) = S754_zero false
               \/ exists q e, div (of_Z 1000) (of_Z elapsed) = S754_finite false q e).
  { destruct (of_Z_positive elapsed Hel) as [->|(p & e & He & ->)].
    - left. reflexivity.
    - now apply div_1000_finite. }
  change (of_Z 0) with (S754_zero false).
  destruct Hq as [->|(q & e & ->)]; reflexivity.
Qed.

(** ** The boost controller *)

(** C1.  On every pass the boost switch logic is evaluated against the
    smoothed vat temperature [T] of that pass and the hour [h]: at
    [T >= 4600] the relay state and the override both become false; below
    that, an active override or an open window ([14 <= h < 20] or
    [4 <= h < 7]) with [T < 4200] switches the state on; otherwise the state
    stays as it was.  In particular a relay that is on, without override,
    stays on at [4200 <= T < 4600] outside both windows. *)
Theorem boost_controller_priority `{Libraries} (st : state) (i : pass_input) :
  let T := avg_shw_vat_temp st i in
  let h := hour i in
  let st' := fst (process st i) in
  (4600 <= T -> shw_boost_state st' = false /\ shw_boost_override st' = false)
  /\ (T < 4600 ->
      shw_boost_override st = true
      \/ (14 <= h < 20 /\ T < 4200) \/ (4 <= h < 7 /\ T < 4200) ->
      shw_boost_state st' = true
      /\ shw_boost_override st' = shw_boost_override st)
  /\ (T < 4600 ->
      shw_boost_override st = false ->
      ~ (14 <= h < 20 /\ T < 4200) -> ~ (4 <= h < 7 /\ T < 4200) ->
      shw_boost_state st' = shw_boost_state st
      /\ shw_boost_override st' = shw_boost_override st)
  /\ (shw_boost_state st = true -> shw_boost_override st = false ->
      4200 <= T < 4600 -> ~ 14 <= h < 20 -> ~ 4 <= h < 7 ->
      shw_boost_state st' = true).
Proof.
  cbv zeta. pose proof (process_boost st i) as Hafter. revert Hafter.
  generalize (shw_boost_state (fst (process st i)))
             (shw_boost_override (fst (process st i)))
             (avg_shw_vat_temp st i) (hour i).
  intros b' o' T h. unfold boost_logic, BOOST_OFF_TEMP, BOOST_ON_A_START, BOOST_ON_A_END,
    BOOST_ON_A_TEMP, BOOST_ON_B_START, BOOST_ON_B_END, BOOST_ON_B_TEMP.
  destruct (Z.leb_spec 4600 T) as [Hoff|Hoff].
  { intros [= -> ->]. repeat split; intros; lia. }
  destruct (shw_boost_override st) eqn:Hover; simpl.
  { intros [= -> ->]. repeat split; intros; first [reflexivity | lia | discriminate]. }
  destruct (Z.leb_spec 14 h), (Z.ltb_spec h 20), (Z.ltb_spec T 4200),
    (Z.leb_spec 4 h), (Z.ltb_spec h 7); simpl;
    intros [= -> ->]; repeat split; intros;
    first [reflexivity | lia | assumption | intuition (discriminate || lia)].
Qed.

Lemma boost_controller_priority_witness :
  shw_boost_state (fst (process Bench.hot_override (Bench.pass_at 15 Bench.pad_43_00 Bench.pad_46_00 0 2000))) = false
  /\ shw_boost_state (fst (process Bench.boot (Bench.pass_at 15 Bench.pad_25_00 Bench.pad_25_00 0 2000))) = true
  /\ shw_boost_state (fst (process Bench.boot (Bench.pass_at 22 Bench.pad_25_00 Bench.pad_25_00 0 2000))) = false
  /\ shw_boost_state (fst (process Bench.warm_on (Bench.pass_at 22 Bench.pad_43_00 Bench.pad_43_00 0 2000))) = true.
Proof.
  pose proof (boost_controller_priority Bench.hot_override
                (Bench.pass_at 15 Bench.pad_43_00 Bench.pad_46_00 0 2000)) as Hoff.
  pose proof (boost_controller_priority Bench.boot
                (Bench.pass_at 15 Bench.pad_25_00 Bench.pad_25_00 0 2000)) as Hon.
  pose proof (boost_controller_priority Bench.boot
                (Bench.pass_at 22 Bench.pad_25_00 Bench.pad_25_00 0 2000)) as Hkeep.
  pose proof (boost_controller_priority Bench.warm_on
                (Bench.pass_at 22 Bench.pad_43_00 Bench.pad_43_00 0 2000)) as Hstay.
  cbv zeta in Hoff, Hon, Hkeep, Hstay.
  destruct Hoff as (Hoff & _), Hon as (_ & Hon & _), Hkeep as (_ & _ & Hkeep & _),
    Hstay as (_ & _ & _ & Hstay).
  split; [|split; [|split]].
  - refine (proj1 (Hoff _)). vm_compute. intros Hc. discriminate Hc.
  - refine (proj1 (Hon _ _)).
    + vm_compute. reflexivity.
    + right. left. vm_compute.
      split; [split; [intros Hc; discriminate Hc | reflexivity] | reflexivity].
  - refine (proj1 (Hkeep _ _ _ _)).
    + vm_compute. reflexivity.
    + vm_compute. reflexivity.
    + vm_compute. intros [[_ Hh] _]. discriminate Hh.
    + vm_compute. intros [[_ Hh] _]. discriminate Hh.
  - refine (Hstay _ _ _ _ _).
    + vm_compute. reflexivity.
    + vm_compute. reflexivity.
    + vm_compute. split; [intros Hc; discriminate Hc | reflexivity].
    + vm_compute. intros [_ Hh]. discriminate Hh.
    + vm_compute. intros [_ Hh]. discriminate Hh.
Defined.

(** ** The deviation clamp *)

(** C2.  In every pass from a state satisfying the invariant (every
    reachable state does), on either channel, with [r] the raw sample of the
    pass and [a] the last accepted average, the value written into the ring
    buffer lies within 100 of [a], equals [r] whenever [r] lies within 100 of
    [a], and is [a + 100] or [a - 100] when [r] lies further above or
    below. *)
Theorem deviation_clamp `{Libraries} (st : state) (i : pass_input) (ch : channel) :
  invariant st = true ->
  let r := raw_sample ch st i in
  let a := last_avg ch st in
  let clamped := fed ch st i in
  ringbuf ch (fst (process st i)) !! Z.to_nat (shw_ringbuf_offset st) = Some clamped
  /\ Z.abs (clamped - a) <= 100
  /\ (Z.abs (r - a) <= 100 -> clamped = r)
  /\ (100 < r - a -> clamped = a + 100)
  /\ (r - a < -100 -> clamped = a - 100).
Proof.
  intros Hinv. cbv zeta.
  pose proof (raw_sample_sane st i ch Hinv) as Hr.
  pose proof (last_avg_sane st ch Hinv) as Ha.
  apply invariant_spec in Hinv as (Hoff & Hlen & _ & _).
  split.
  - rewrite process_ringbuf. unfold ringbuf_write.
    apply list_lookup_insert_eq. rewrite Hlen. unfold SHW_RINGBUF_NUM_ITEMS. lia.
  - rewrite fed_sanitise. revert Hr Ha.
    generalize (raw_sample ch st i) (last_avg ch st). intros r a Hr Ha.
    apply sanitise_spec; unfold sane, is_int, INT_MIN, INT_MAX in *; lia.
Qed.

Lemma deviation_clamp_witness :
  fed Vat Bench.boot (Bench.pass_at 22 Bench.pad_25_00 Bench.pad_43_00 0 2000)
  = last_avg Vat Bench.boot + 100.
Proof.
  pose proof (deviation_clamp Bench.boot
                (Bench.pass_at 22 Bench.pad_25_00 Bench.pad_43_00 0 2000) Vat) as Hc.
  cbv zeta in Hc.
  refine (proj1 (proj2 (proj2 (proj2 (Hc _)))) _).
  - vm_compute. reflexivity.
  - vm_compute. reflexivity.
Defined.

(** ** Retries of the sensor reader *)

(** C6.  [getSaneCurrentTemp] makes between one and five read attempts.  It
    returns 1 with the decoded reading, which is in range, at the first
    attempt that passes the CRC and the range check; when five attempts in a
    row fail it returns 0 and leaves [*temp] as it was.  A pass preloads
    [*temp] with the channel's last average, so on failure the raw sample
    and the value written into the ring buffer are that average, and the
    pass carries on. *)
Theorem sensor_read_retries `{Libraries} (bus : nat -> scratchpad) (temp : Z) :
  let r := getSaneCurrentTemp bus temp in
  (1 <= rd_attempts r <= 5)%nat
  /\ (forall k : nat,
        (k < 5)%nat ->
        (forall j : nat, (j < k)%nat -> attempt_ok (bus j) = false) ->
        attempt_ok (bus k) = true ->
        rd_ret r = 1 /\ rd_temp r = decode (bus k)
        /\ in_range (rd_temp r) = true /\ rd_attempts r = S k)
  /\ ((forall j : nat, (j < 5)%nat -> attempt_ok (bus j) = false) ->
      rd_ret r = 0 /\ rd_temp r = temp /\ rd_attempts r = 5%nat)
  /\ (forall (st : state) (i : pass_input) (ch : channel),
        rd_ret (sensor_reading ch st i) = 0 ->
        raw_sample ch st i = last_avg ch st
        /\ fed ch st i = last_avg ch st
        /\ ringbuf ch (fst (process st i))
           = ringbuf_write (ringbuf ch st) (shw_ringbuf_offset st) (last_avg ch st)).
Proof.
  cbv zeta. unfold getSaneCurrentTemp. split; [|split; [|split]].
  - destruct (attempts_count bus temp 5 0) as [Hle Hlt]. lia.
  - intros k Hk Hbad Hok.
    rewrite (attempts_first_ok bus temp 5 0 k); [|lia|intros j Hj; apply Hbad; lia|exact Hok].
    cbn [rd_ret rd_temp rd_attempts]. unfold attempt_ok in Hok.
    apply andb_true_iff in Hok as [_ Hin]. auto.
  - intros Hbad. rewrite attempts_fail; [auto | intros j Hj; apply Hbad; lia].
  - intros st i ch Hfail.
    assert (Hraw : raw_sample ch st i = last_avg ch st).
    { unfold raw_sample. revert Hfail.
      assert (Hout : forall b t, rd_ret (getSaneCurrentTemp b t) = 0 ->
                                 rd_temp (getSaneCurrentTemp b t) = t).
      { intros b t. unfold getSaneCurrentTemp.
        destruct (attempts_outcome b t 5 0) as [[-> _]|[_ ->]]; [discriminate | reflexivity]. }
      destruct ch; apply Hout. }
    assert (Hfed : fed ch st i = last_avg ch st).
    { rewrite fed_sanitise, Hraw. apply sanitise_same. }
    split; [exact Hraw|]. split; [exact Hfed|].
    rewrite process_ringbuf. now rewrite Hfed.
Qed.

Lemma sensor_read_retries_witness :
  rd_ret (getSaneCurrentTemp Bench.fifth_time_lucky 2600) = 1
  /\ rd_temp (getSaneCurrentTemp Bench.fifth_time_lucky 2600) = 2500
  /\ rd_attempts (getSaneCurrentTemp Bench.fifth_time_lucky 2600) = 5%nat
  /\ rd_ret (getSaneCurrentTemp (Bench.steady (Bench.corrupt x90 x01)) 2600) = 0
  /\ rd_temp (getSaneCurrentTemp (Bench.steady (Bench.corrupt x90 x01)) 2600) = 2600
  /\ fed Vat Bench.boot
       (Bench.pass_at 22 Bench.pad_25_00 (Bench.corrupt xa0 x01) 0 2000) = 2500.
Proof.
  pose proof (sensor_read_retries Bench.fifth_time_lucky 2600) as Hgood.
  pose proof (sensor_read_retries (Bench.steady (Bench.corrupt x90 x01)) 2600) as Hbad.
  cbv zeta in Hgood, Hbad.
  destruct Hgood as (_ & Hgood & _), Hbad as (_ & _ & Hbad & Hcaller).
  assert (H4 : forall j : nat, (j < 4)%nat ->
                 attempt_ok (Bench.fifth_time_lucky j) = false).
  { intros j Hj. do 4 (destruct j as [|j]; [vm_compute; reflexivity|]). lia. }
  assert (H5 : forall j : nat, (j < 5)%nat ->
                 attempt_ok (Bench.steady (Bench.corrupt x90 x01) j) = false).
  { intros j _. vm_compute. reflexivity. }
  destruct (Hgood 4%nat) as (Hret & Htemp & _ & Hn);
    [lia | exact H4 | vm_compute; reflexivity |].
  destruct (Hbad H5) as (Hret0 & Htemp0 & _).
  destruct (Hcaller Bench.boot
              (Bench.pass_at 22 Bench.pad_25_00 (Bench.corrupt xa0 x01) 0 2000) Vat)
    as (_ & Hfed & _); [vm_compute; reflexivity|].
  split; [exact Hret|]. split; [rewrite Htemp; vm_compute; reflexivity|].
  split; [exact Hn|]. split; [exact Hret0|]. split; [exact Htemp0|].
  rewrite Hfed. vm_compute. reflexivity.
Defined.

(** ** The range check *)

(** C8, as the code has it.  An attempt whose frame is intact is accepted
    exactly when its decoded value lies strictly between -500 and 10000:
    the call then returns at once with that value. *)
Theorem range_check_exclusive `{Libraries} (bus : nat -> scratchpad) (temp : Z) :
  crc_ok (bus 0%nat) = true ->
  let r := getSaneCurrentTemp bus temp in
  (rd_attempts r = 1%nat /\ rd_ret r = 1 /\ rd_temp r = decode (bus 0%nat))
  <-> -500 < decode (bus 0%nat) < 10000.
Proof.
  intros Hcrc. cbv zeta. rewrite <- in_range_spec.
  unfold getSaneCurrentTemp.
  change (attempts 5 0 bus temp)
    with (if negb (crc_ok (bus 0%nat)) then attempts 4 1 bus temp
          else if in_range (decode (bus 0%nat))
               then {| rd_ret := 1; rd_temp := decode (bus 0%nat); rd_attempts := 1 |}
               else attempts 4 1 bus temp).
  rewrite Hcrc. cbn [negb].
  destruct (in_range (decode (bus 0%nat))) eqn:Hin.
  - cbn [rd_ret rd_temp rd_attempts]. tauto.
  - destruct (attempts_count bus temp 4 1) as [_ Hlt].
    split; [intros (Hone & _); lia | discriminate].
Qed.

Lemma range_check_exclusive_witness :
  rd_attempts (getSaneCurrentTemp (Bench.steady Bench.pad_25_00) 0) = 1%nat
  /\ rd_ret (getSaneCurrentTemp (Bench.steady Bench.pad_25_00) 0) = 1
  /\ rd_temp (getSaneCurrentTemp (Bench.steady Bench.pad_25_00) 0)
     = decode (Bench.steady Bench.pad_25_00 0%nat).
Proof.
  pose proof (range_check_exclusive (Bench.steady Bench.pad_25_00) 0) as Hacc.
  cbv zeta in Hacc. refine (proj2 (Hacc _) _).
  - vm_compute. reflexivity.
  - vm_compute. split; reflexivity.
Defined.

(** The frames for 100.00 C and -5.00 C are intact and decode to 10000 and
    -500, the two ends of the range; the reader turns both down, five times
    out of five. *)
Lemma range_check_rejects_bounds :
  (crc_ok Bench.pad_100_00 = true
   /\ decode Bench.pad_100_00 = 10000
   /\ getSaneCurrentTemp (Bench.steady Bench.pad_100_00) 2500
      = {| rd_ret := 0; rd_temp := 2500; rd_attempts := 5 |})
  /\ (crc_ok Bench.pad_minus_5_00 = true
      /\ decode Bench.pad_minus_5_00 = -500
      /\ getSaneCurrentTemp (Bench.steady Bench.pad_minus_5_00) 2500
         = {| rd_ret := 0; rd_temp := 2500; rd_attempts := 5 |}).
Proof. vm_compute. repeat split. Qed.

(** ** The once-per-second gate *)

(** C7, as the code has it.  A call of [loop] runs the processing pass
    exactly when more than 1000 ms lie between [millis()] and the time of
    the previous pass (the difference taken as an [unsigned long]); with
    1000 ms or less it goes straight to the packet poll. *)
Theorem pass_gate `{Libraries} (st : state) (i : loop_input) :
  let elapsed := to_ulong (to_ulong (millis_gate i) - shw_hotwater_flowsensor_oldtime st) in
  (1000 < elapsed -> loop st i = poll (process st (pass i)) i)
  /\ (elapsed <= 1000 -> loop st i = poll (st, []) i).
Proof.
  cbv zeta. unfold loop, gate.
  destruct (Z.ltb_spec 1000
              (to_ulong (to_ulong (millis_gate i) - shw_hotwater_flowsensor_oldtime st)));
    split; intros; first [reflexivity | lia].
Qed.

Lemma pass_gate_witness :
  loop Bench.boot (Bench.quiet 1001)
  = poll (process Bench.boot (pass (Bench.quiet 1001))) (Bench.quiet 1001).
Proof.
  pose proof (pass_gate Bench.boot (Bench.quiet 1001)) as Hgate.
  cbv zeta in Hgate. refine (proj1 Hgate _). vm_compute. reflexivity.
Defined.

(** With exactly 1000 ms gone since the previous pass [loop] does nothing,
    where a pass would have sent both records and moved on. *)
Lemma gate_shut_at_1000 :
  to_ulong (to_ulong (millis_gate (Bench.quiet 1000))
            - shw_hotwater_flowsensor_oldtime Bench.boot) = 1000
  /\ loop Bench.boot (Bench.quiet 1000) = Some (Bench.boot, [])
  /\ poll (process Bench.boot (pass (Bench.quiet 1000))) (Bench.quiet 1000)
     <> Some (Bench.boot, []).
Proof.
  split; [vm_compute; reflexivity|]. split; [vm_compute; reflexivity|].
  vm_compute. intros Hsame. discriminate Hsame.
Qed.

(** ** Filling the ring buffer *)

Section Filling.
Context `{Libraries}.

Lemma passes_snoc (ins : list pass_input) (i : pass_input) (st : state) :
  passes st (ins ++ [i]) = fst (process (passes st ins) i).
Proof.
  revert st. induction ins as [|j ins IH]; intros st; cbn [passes app]; [reflexivity|].
  apply IH.
Qed.

Lemma ingests_snoc (ch : channel) (w : Z) (ins : list pass_input) (i : pass_input)
    (st : state) :
  ingests ch w st (ins ++ [i]) = true <->
  ingests ch w st ins = true
  /\ raw_sample ch (passes st ins) i = w
  /\ Z.abs (w - last_avg ch (passes st ins)) <= 100.
Proof.
  revert st. induction ins as [|j ins IH]; intros st; cbn [ingests passes app].
  - rewrite !andb_true_iff, Z.eqb_eq, Z.leb_le. tauto.
  - rewrite !andb_true_iff, IH, Z.eqb_eq, Z.leb_le. tauto.
Qed.

(** A raw sample the filter has no quarrel with goes into the buffer as it
    is. *)
Lemma fed_unclamped (ch : channel) (w : Z) (st : state) (i : pass_input) :
  invariant st = true ->
  raw_sample ch st i = w -> Z.abs (w - last_avg ch st) <= 100 ->
  fed ch st i = w.
Proof.
  intros Hinv Hraw Hnear.
  pose proof (raw_sample_sane st i ch Hinv) as Hr.
  pose proof (last_avg_sane st ch Hinv) as Ha.
  rewrite fed_sanitise, Hraw in *.
  apply sanitise_spec; unfold sane, is_int, INT_MIN, INT_MAX in *; lia.
Qed.

(** After [k <= 10] passes that ingest [w], the [k] slots from the offset
    the first pass wrote at hold [w]. *)
Lemma passes_fill (ch : channel) (w : Z) (ins : list pass_input) (st : state) :
  invariant st = true ->
  ingests ch w st ins = true ->
  shw_ringbuf_offset (passes st ins)
  = (shw_ringbuf_offset st + Z.of_nat (length ins)) mod 10
  /\ ((length ins <= 10)%nat ->
      forall j : Z, 0 <= j < Z.of_nat (length ins) ->
        ringbuf ch (passes st ins) !! Z.to_nat ((shw_ringbuf_offset st + j) mod 10)
        = Some w).
Proof.
  intros Hinv. induction ins as [|i ins IH] using rev_ind; intros Hing.
  - cbn [passes length]. apply invariant_spec in Hinv as (Hoff & _).
    split; [rewrite Z.add_0_r, Z.mod_small; lia | intros _ j Hj; cbn in Hj; lia].
  - apply ingests_snoc in Hing as (Hing & Hraw & Hnear).
    destruct (IH Hing) as [Hoff Hslots]. clear IH.
    pose proof (passes_invariant ins st Hinv) as Hinv'.
    pose proof (fed_unclamped ch w _ i Hinv' Hraw Hnear) as Hfed.
    pose proof Hinv' as (Hoff' & Hlen' & _)%invariant_spec.
    pose proof Hinv as (Hoff0 & _)%invariant_spec.
    rewrite passes_snoc, length_app. cbn [length].
    split.
    + rewrite process_offset, ringbuf_advance_spec by exact Hoff'.
      rewrite Hoff, Z.add_mod_idemp_l by lia. f_equal. lia.
    + intros Hk j Hj. rewrite process_ringbuf, Hfed. unfold ringbuf_write. rewrite Hoff.
      destruct (Z.eq_dec j (Z.of_nat (length ins))) as [->|Hne].
      * apply list_lookup_insert_eq. rewrite Hlen'. unfold SHW_RINGBUF_NUM_ITEMS.
        pose proof (Z.mod_pos_bound (shw_ringbuf_offset st + Z.of_nat (length ins)) 10). lia.
      * rewrite list_lookup_insert_ne.
        -- apply Hslots; lia.
        -- intros Heq. apply Z2Nat.inj in Heq;
             [|apply Z.mod_pos_bound; lia|apply Z.mod_pos_bound; lia].
           revert Heq. generalize (shw_ringbuf_offset st) Hoff0. intros o Ho Heq.
           apply Hne. Z.div_mod_to_equations. lia.
Qed.

(** Ten passes that ingest [w] leave nothing but [w] in the buffer, and the
    average is [w]. *)
Lemma passes_refill (ch : channel) (w : Z) (ins : list pass_input) (st : state) :
  invariant st = true -> length ins = 10%nat -> ingests ch w st ins = true ->
  ringbuf ch (passes st ins) = replicate 10 w /\ last_avg ch (passes st ins) = w.
Proof.
  intros Hinv Hten Hing.
  destruct (passes_fill ch w ins st Hinv Hing) as [_ Hslots].
  pose proof (passes_invariant ins st Hinv) as (_ & Hlen & Hsane & Havg)%invariant_spec.
  pose proof Hinv as (Hoff & _)%invariant_spec.
  assert (Hbuf : ringbuf ch (passes st ins) = replicate 10 w).
  { apply list_eq. intros n. destruct (Nat.lt_ge_cases n 10) as [Hn|Hn].
    - rewrite lookup_replicate_2 by exact Hn.
      specialize (Hslots ltac:(lia) ((Z.of_nat n - shw_ringbuf_offset st) mod 10)).
      rewrite Hten in Hslots.
      replace ((shw_ringbuf_offset st + (Z.of_nat n - shw_ringbuf_offset st) mod 10) mod 10)
        with (Z.of_nat n) in Hslots
        by (revert Hoff; generalize (shw_ringbuf_offset st); intros o Ho;
            Z.div_mod_to_equations; lia).
      rewrite Nat2Z.id in Hslots. apply Hslots.
      pose proof (Z.mod_pos_bound (Z.of_nat n - shw_ringbuf_offset st) 10). lia.
    - rewrite !lookup_ge_None_2; [reflexivity | rewrite length_replicate; lia |].
      rewrite (Hlen ch). unfold SHW_RINGBUF_NUM_ITEMS. lia. }
  split; [exact Hbuf|]. rewrite Havg, Hbuf.
  assert (Hw : sane w).
  { specialize (Hsane ch). rewrite Hbuf in Hsane.
    apply (Forall_lookup_1 _ _ 0%nat w) in Hsane; [exact Hsane | reflexivity]. }
  apply ringbuf_avg_replicate. unfold sane, is_int, INT_MIN, INT_MAX in *. lia.
Qed.

End Filling.

(** C3.  A pass writes the two filtered samples at the one offset, moves
    the offset on by one slot modulo 10 and takes each average as the
    truncated mean of the ten slots.  Ten equal slots average to their
    value; and ten passes in a row that ingest [w], the filter letting it
    through, leave the average at [w]. *)
Theorem ring_buffer_average `{Libraries} :
  (forall (st : state) (i : pass_input),
      invariant st = true ->
      let st' := fst (process st i) in
      shw_ringbuf_offset st' = (shw_ringbuf_offset st + 1) mod 10
      /\ forall ch : channel,
           ringbuf ch st' = <[Z.to_nat (shw_ringbuf_offset st) := fed ch st i]> (ringbuf ch st)
           /\ smoothed ch st i = Z.quot (total (ringbuf ch st')) 10
           /\ last_avg ch st' = smoothed ch st i)
  /\ (forall v : Z, is_int v -> ringbuf_avg (replicate 10 v) = v)
  /\ (forall (st : state) (ins : list pass_input) (ch : channel) (w : Z),
        invariant st = true -> length ins = 10%nat -> ingests ch w st ins = true ->
        ringbuf ch (passes st ins) = replicate 10 w
        /\ last_avg ch (passes st ins) = w).
Proof.
  split; [|split].
  - intros st i Hinv. cbv zeta.
    pose proof Hinv as (Hoff & _)%invariant_spec.
    pose proof (process_invariant st i Hinv) as (_ & Hlen & Hsane & Havg)%invariant_spec.
    split; [rewrite process_offset; now apply ringbuf_advance_spec|].
    intros ch. split; [apply process_ringbuf|].
    rewrite smoothed_ringbuf. split; [|apply Havg].
    apply ringbuf_avg_total; [apply Hlen | apply sane_is_int, Hsane].
  - apply ringbuf_avg_replicate.
  - intros st ins ch w. apply passes_refill.
Qed.

Lemma ring_buffer_average_witness :
  shw_ringbuf_offset (fst (process Bench.hot_override
                             (Bench.pass_at 22 Bench.pad_43_00 Bench.pad_46_00 0 2000)))
  = (shw_ringbuf_offset Bench.hot_override + 1) mod 10
  /\ ringbuf_avg (replicate 10 2500) = 2500
  /\ last_avg Vat (passes Bench.boot Bench.ten_passes) = 2600.
Proof.
  destruct (@ring_buffer_average avr_libs) as (Hpass & Hsame & Hten).
  pose proof (Hpass Bench.hot_override
                (Bench.pass_at 22 Bench.pad_43_00 Bench.pad_46_00 0 2000)) as H1.
  cbv zeta in H1.
  split; [|split].
  - refine (proj1 (H1 _)). vm_compute. reflexivity.
  - apply Hsame. vm_compute. split; intros Hc; discriminate Hc.
  - refine (proj2 (Hten Bench.boot Bench.ten_passes Vat 2600 _ _ _));
      vm_compute; reflexivity.
Defined.

(** ** Flow integration *)

Lemma count_up (n : nat) (c : Z) :
  0 <= c < 65536 ->
  Nat.iter n (fun c => to_uint (c + 1)) c = to_uint (c + Z.of_nat n).
Proof.
  intros Hc. induction n as [|n IH].
  - change (Nat.iter 0 (fun c => to_uint (c + 1)) c) with c.
    rewrite Z.add_0_r. symmetry. now apply to_uint_id.
  - rewrite Nat.iter_succ, IH. unfold to_uint, wrapu.
    rewrite Z.add_mod_idemp_l by (change (2 ^ 16) with 65536; lia).
    f_equal. lia.
Qed.

Lemma hotwater_handler_runs (n : nat) (st : state) :
  shw_hotwater_flowsensor_pulsecount (Nat.iter n shw_hotwater_interrupt_handler st)
  = Nat.iter n (fun c => to_uint (c + 1)) (shw_hotwater_flowsensor_pulsecount st).
Proof.
  induction n as [|n IH]; [reflexivity|].
  rewrite !Nat.iter_succ. unfold shw_hotwater_interrupt_handler at 1.
  cbn [shw_hotwater_flowsensor_pulsecount]. now rewrite IH.
Qed.

Lemma boostpulse_handler_runs (n : nat) (st : state) :
  shw_hotwater_flowsensor_pulsecount (Nat.iter n shw_boostpulse_interrupt_handler st)
  = shw_hotwater_flowsensor_pulsecount st.
Proof.
  induction n as [|n IH]; [reflexivity|].
  rewrite Nat.iter_succ. unfold shw_boostpulse_interrupt_handler at 1.
  cbn [shw_hotwater_flowsensor_pulsecount]. exact IH.
Qed.

(** The flow counter at the drain: one more per run of the handler. *)
Lemma flow_pulses_count (st : state) (i : pass_input) :
  0 <= shw_hotwater_flowsensor_pulsecount st < 65536 ->
  flow_pulses st i
  = to_uint (shw_hotwater_flowsensor_pulsecount st + Z.of_nat (flow_irqs i)).
Proof.
  intros Hc. unfold flow_pulses, interrupts.
  rewrite hotwater_handler_runs, boostpulse_handler_runs. now apply count_up.
Qed.

(** The calibration factor is the float 11 / 2. *)
Lemma calibrationFactor_value : calibrationFactor = div (of_Z 11) (of_Z 2).
Proof. vm_compute. reflexivity. Qed.

(** The time the flow section divides by is not zero: it is the time the
    once-per-second check saw, more than 1000 ms, plus what the pass has
    taken since (as long as the 32-bit clock difference does not wrap). *)
Lemma elapsed_after_gate (st : state) (i : loop_input) (spent : Z) :
  gate (millis_gate i) st = true ->
  0 <= shw_hotwater_flowsensor_oldtime st < 4294967296 ->
  0 <= spent ->
  millis_rate (pass i) = millis_gate i + spent ->
  to_ulong (to_ulong (millis_gate i) - shw_hotwater_flowsensor_oldtime st) + spent
  < 4294967296 ->
  1000 < elapsed_ms st (pass i).
Proof.
  unfold gate, elapsed_ms. intros Hgate%Z.ltb_lt Hold Hspent -> Hwrap.
  revert Hgate Hwrap. generalize (shw_hotwater_flowsensor_oldtime st) Hold.
  intros old Hold' Hgate Hwrap. unfold to_ulong, wrapu in *.
  change (2 ^ 32) with 4294967296 in *.
  rewrite Zminus_mod_idemp_l in *.
  replace (millis_gate i + spent - old) with (millis_gate i - old + spent) by lia.
  rewrite <- Zplus_mod_idemp_l. rewrite Z.mod_small; [lia|].
  pose proof (Z.mod_pos_bound (millis_gate i - old) 4294967296). lia.
Qed.

(** C4.  A pass sets the flow rate to
    [(1000.0 / elapsed_ms) * pulse_count / 5.5], the volume of the pass to
    [(flow_rate / 60) * 1000] converted to an integer, and adds that volume
    to the running total.  55 pulses in 1000 ms give a rate of exactly 10.0
    and a volume of 166; two such passes add 332 to the total; and with no
    pulse the rate is exactly zero and the volume 0. *)
Theorem flow_integration `{Libraries} :
  (forall (st : state) (i : pass_input),
      let st' := fst (process st i) in
      let elapsed :=
        to_ulong (to_ulong (millis_rate i) - shw_hotwater_flowsensor_oldtime st) in
      let pulse_count := flow_pulses st i in
      let rate :=
        div (mul (div (of_Z 1000) (of_Z elapsed)) (of_Z pulse_count))
            (div (of_Z 11) (of_Z 2)) in
      let ml := to_unsigned_int (mul (div rate (of_Z 60)) (of_Z 1000)) in
      shw_hotwater_flowsensor_flow_rate st' = rate
      /\ shw_hotwater_flowsensor_flow_ml st' = ml
      /\ shw_hotwater_flowsensor_total_ml st'
         = to_ulong (shw_hotwater_flowsensor_total_ml st + ml)
      /\ (shw_hotwater_flowsensor_pulsecount st = 0 ->
          pulse_count = to_uint (Z.of_nat (flow_irqs i))))
  /\ (flow_rate 1000 55 = of_Z 10 /\ flow_ml (flow_rate 1000 55) = 166)
  /\ (forall (st : state) (i1 i2 : pass_input),
        let st1 := fst (process st i1) in
        let st2 := fst (process st1 i2) in
        elapsed_ms st i1 = 1000 -> flow_pulses st i1 = 55 ->
        elapsed_ms st1 i2 = 1000 -> flow_pulses st1 i2 = 55 ->
        0 <= shw_hotwater_flowsensor_total_ml st ->
        shw_hotwater_flowsensor_total_ml st + 332 < 4294967296 ->
        shw_hotwater_flowsensor_flow_ml st1 = 166
        /\ shw_hotwater_flowsensor_flow_ml st2 = 166
        /\ shw_hotwater_flowsensor_total_ml st2
           = shw_hotwater_flowsensor_total_ml st + 332)
  /\ (forall elapsed : Z,
        0 < elapsed ->
        flow_rate elapsed 0 = of_Z 0 /\ flow_ml (flow_rate elapsed 0) = 0).
Proof.
  assert (Hexample : flow_rate 1000 55 = of_Z 10 /\ flow_ml (flow_rate 1000 55) = 166).
  { split; vm_compute; reflexivity. }
  split; [|split; [exact Hexample|split]].
  - intros st i. cbv zeta.
    destruct (process_flow st i) as (Hrate & Hml & Htotal & _).
    rewrite Hrate, Hml, Htotal. repeat split.
    intros Hzero. rewrite flow_pulses_count by (rewrite Hzero; lia).
    now rewrite Hzero.
  - intros st i1 i2. cbv zeta. intros He1 Hp1 He2 Hp2 Hlo Hhi.
    destruct (process_flow st i1) as (_ & Hml1 & Htotal1 & _).
    destruct (process_flow (fst (process st i1)) i2) as (_ & Hml2 & Htotal2 & _).
    rewrite He1, Hp1 in Hml1, Htotal1. rewrite He2, Hp2 in Hml2, Htotal2.
    destruct Hexample as [_ H166]. rewrite H166 in Hml1, Htotal1, Hml2, Htotal2.
    split; [exact Hml1|]. split; [exact Hml2|].
    rewrite Htotal2, Htotal1.
    rewrite (to_ulong_id (shw_hotwater_flowsensor_total_ml st + 166)) by lia.
    rewrite to_ulong_id by lia. lia.
  - intros elapsed Hel. rewrite flow_rate_no_pulses by exact Hel.
    split; vm_compute; reflexivity.
Qed.

Lemma flow_integration_witness :
  shw_hotwater_flowsensor_total_ml
    (fst (process (fst (process Bench.boot
                          (Bench.pass_at 22 Bench.pad_25_00 Bench.pad_25_00 55 1000)))
            (Bench.pass_at 22 Bench.pad_25_00 Bench.pad_25_00 55 2000)))
  = shw_hotwater_flowsensor_total_ml Bench.boot + 332
  /\ flow_rate 1000 0 = of_Z 0
  /\ flow_pulses Bench.boot (Bench.pass_at 22 Bench.pad_25_00 Bench.pad_25_00 55 1000)
     = to_uint (Z.of_nat (flow_irqs (Bench.pass_at 22 Bench.pad_25_00 Bench.pad_25_00 55 1000))).
Proof.
  destruct (@flow_integration avr_libs) as (Hpass & _ & Htwice & Hnone).
  pose proof (Htwice Bench.boot
                (Bench.pass_at 22 Bench.pad_25_00 Bench.pad_25_00 55 1000)
                (Bench.pass_at 22 Bench.pad_25_00 Bench.pad_25_00 55 2000)) as H2.
  pose proof (Hpass Bench.boot
                (Bench.pass_at 22 Bench.pad_25_00 Bench.pad_25_00 55 1000)) as H1.
  cbv zeta in H1, H2.
  split; [|split].
  - refine (proj2 (proj2 (H2 _ _ _ _ _ _))); vm_compute; try reflexivity.
    intros Hc; discriminate Hc.
  - refine (proj1 (Hnone 1000 _)). reflexivity.
  - refine (proj2 (proj2 (proj2 H1)) _). vm_compute. reflexivity.
Defined.

(** ** Inbound datagrams *)

Lemma nat_of_ascii_diff (a b : ascii) :
  Z.of_nat (nat_of_ascii a) - Z.of_nat (nat_of_ascii b) = 0 -> a = b.
Proof.
  intros Hd. assert (Hn : nat_of_ascii a = nat_of_ascii b) by lia.
  rewrite <- (ascii_nat_embedding a), <- (ascii_nat_embedding b). now rewrite Hn.
Qed.

(** [strcmp] against a literal compares the literal with the C string the
    array holds. *)
Lemma strcmp_literal (p rest s : list ascii) :
  Forall (fun c => c <> NUL) s ->
  strcmp (p ++ NUL :: rest) (s ++ [NUL]) = 0 <-> c_string p = s.
Proof.
  revert s. induction p as [|a p IH]; intros s Hs.
  - destruct s as [|c s]; cbn [app strcmp c_string].
    + destruct (Ascii.eqb_spec NUL NUL) as [_|Hne]; [|contradiction]. cbn [negb]. tauto.
    + apply Forall_cons in Hs as [Hc _].
      destruct (Ascii.eqb_spec NUL c) as [Heq|Hne]; [now subst c|]. cbn [negb].
      split; [|discriminate]. intros Hd. apply nat_of_ascii_diff in Hd. contradiction.
  - destruct s as [|c s]; cbn [app strcmp c_string].
    + destruct (Ascii.eqb_spec a NUL) as [->|Hne].
      * destruct (Ascii.eqb_spec NUL NUL) as [_|Hne]; [|contradiction]. cbn [negb]. tauto.
      * cbn [negb]. split; [|discriminate].
        intros Hd. apply nat_of_ascii_diff in Hd. contradiction.
    + apply Forall_cons in Hs as [Hc Hs].
      destruct (Ascii.eqb_spec a c) as [->|Hne]; cbn [negb].
      * destruct (Ascii.eqb_spec c NUL) as [|_]; [contradiction|].
        rewrite IH by exact Hs. split; [now intros -> | now intros [= ->]].
      * split.
        -- intros Hd. apply nat_of_ascii_diff in Hd. contradiction.
        -- destruct (Ascii.eqb_spec a NUL); [discriminate | intros [= ? _]; contradiction].
Qed.

Section Datagrams.
Context `{Libraries}.

(** The buffer [strcmp] sees for a datagram that fits: the payload, the
    terminator, and whatever lay behind. *)
Lemma packet_buffer (payload : list ascii) (stk : nat -> ascii) :
  (length payload < UDP_TX_PACKET_MAX_SIZE)%nat ->
  Z.of_nat (length payload) <= INT_MAX ->
  exists rest,
    store (udp_read payload (map stk (seq 0 UDP_TX_PACKET_MAX_SIZE)) UDP_TX_PACKET_MAX_SIZE)
      (to_int (Z.of_nat (length payload))) NUL
    = Some (payload ++ NUL :: rest).
Proof.
  intros Hfit Hint.
  rewrite to_int_id by (unfold is_int, INT_MIN, INT_MAX in *; lia).
  set (buffer := map stk (seq 0 UDP_TX_PACKET_MAX_SIZE)).
  assert (Hlen : length buffer = UDP_TX_PACKET_MAX_SIZE)
    by (subst buffer; now rewrite length_map, length_seq).
  unfold udp_read. rewrite Nat.min_l by lia. rewrite firstn_all.
  destruct (drop (length payload) buffer) as [|b rest] eqn:Hdrop.
  { apply (f_equal length) in Hdrop. rewrite length_drop in Hdrop. simpl in Hdrop. lia. }
  exists rest. unfold store. rewrite length_app. cbn [length].
  destruct (Z.leb_spec 0 (Z.of_nat (length payload))); [|lia].
  destruct (Z.ltb_spec (Z.of_nat (length payload))
              (Z.of_nat (length payload + S (length rest)))); [|lia].
  cbn [andb]. f_equal. rewrite Nat2Z.id.
  rewrite insert_app_r_alt by lia. now rewrite Nat.sub_diag.
Qed.

(** A datagram that fills the buffer or more: the terminator is stored
    outside it. *)
Lemma packet_overflow (st : state) (d : datagram) (stk : nat -> ascii) :
  (UDP_TX_PACKET_MAX_SIZE <= length (dg_payload d))%nat ->
  Z.of_nat (length (dg_payload d)) <= INT_MAX ->
  receive st d stk = None.
Proof.
  intros Hbig Hint. unfold receive.
  rewrite to_int_id by (unfold is_int, INT_MIN, INT_MAX in *; lia).
  set (buffer := udp_read _ _ _).
  assert (Hlen : length buffer = UDP_TX_PACKET_MAX_SIZE).
  { subst buffer. unfold udp_read. rewrite Nat.min_r by lia.
    rewrite length_app, length_take, length_drop, length_map, length_seq. lia. }
  unfold store. rewrite Hlen.
  destruct (Z.ltb_spec (Z.of_nat (length (dg_payload d))) (Z.of_nat UDP_TX_PACKET_MAX_SIZE));
    [lia|]. now rewrite andb_false_r.
Qed.

(** What [receive] does with a datagram that fits. *)
Lemma receive_command (st : state) (d : datagram) (stk : nat -> ascii) :
  (length (dg_payload d) < UDP_TX_PACKET_MAX_SIZE)%nat ->
  Z.of_nat (length (dg_payload d)) <= INT_MAX ->
  exists st',
    receive st d stk = Some st'
    /\ firsttime st' = true /\ haveremoteudp st' = true
    /\ (c_string (dg_payload d) = list_ascii_of_string "BOOST_ON" ->
        shw_boost_override st' = true /\ shw_boost_state st' = shw_boost_state st)
    /\ (c_string (dg_payload d) = list_ascii_of_string "BOOST_OFF" ->
        shw_boost_override st' = false /\ shw_boost_state st' = false)
    /\ (c_string (dg_payload d) <> list_ascii_of_string "BOOST_ON" ->
        c_string (dg_payload d) <> list_ascii_of_string "BOOST_OFF" ->
        shw_boost_override st' = shw_boost_override st
        /\ shw_boost_state st' = shw_boost_state st).
Proof.
  intros Hfit Hint. unfold receive.
  destruct (packet_buffer (dg_payload d) stk Hfit Hint) as (rest & ->).
  assert (Hon : strcmp (dg_payload d ++ NUL :: rest) (literal "BOOST_ON") = 0
                <-> c_string (dg_payload d) = list_ascii_of_string "BOOST_ON").
  { unfold literal. apply (strcmp_literal (dg_payload d) rest). unfold NUL. cbn [list_ascii_of_string].
    repeat (apply Forall_cons_2; [discriminate|]). apply Forall_nil_2. }
  assert (Hoff : strcmp (dg_payload d ++ NUL :: rest) (literal "BOOST_OFF") = 0
                 <-> c_string (dg_payload d) = list_ascii_of_string "BOOST_OFF").
  { unfold literal. apply (strcmp_literal (dg_payload d) rest). unfold NUL. cbn [list_ascii_of_string].
    repeat (apply Forall_cons_2; [discriminate|]). apply Forall_nil_2. }
  destruct (Z.eqb_spec (strcmp (dg_payload d ++ NUL :: rest) (literal "BOOST_ON")) 0)
    as [Eon|Eon].
  - eexists. split; [reflexivity|]. cbn. apply Hon in Eon.
    split; [reflexivity|]. split; [reflexivity|].
    split; [intros _; split; reflexivity|].
    split; [intros Hother; rewrite Eon in Hother; discriminate Hother|].
    intros Hne _. contradiction.
  - destruct (Z.eqb_spec (strcmp (dg_payload d ++ NUL :: rest) (literal "BOOST_OFF")) 0)
      as [Eoff|Eoff].
    + eexists. split; [reflexivity|]. cbn. apply Hoff in Eoff.
      split; [reflexivity|]. split; [reflexivity|].
      split; [intros Hother; rewrite Eoff in Hother; discriminate Hother|].
      split; [intros _; split; reflexivity|].
      intros _ Hne. contradiction.
    + eexists. split; [reflexivity|]. cbn.
      split; [reflexivity|]. split; [reflexivity|].
      split; [intros Hc; apply Hon in Hc; contradiction|].
      split; [intros Hc; apply Hoff in Hc; contradiction|].
      intros _ _. split; reflexivity.
Qed.

End Datagrams.

(** With the first-time flag set and a destination known, a pass sends both
    records whatever it measured. *)
Lemma process_reports `{Libraries} (st : state) (j : pass_input) :
  firsttime st = true -> haveremoteudp st = true ->
  existsb is_temp_record (snd (process st j)) = true
  /\ existsb is_flow_record (snd (process st j)) = true.
Proof.
  intros Hfirst Hudp. unfold process. cbn [snd].
  unfold temp_report, flow_report. rewrite Hfirst, Hudp. cbn [orb andb].
  rewrite !existsb_app. cbn [existsb is_temp_record is_flow_record].
  split; now rewrite ?orb_true_r.
Qed.

(** C5, as the code has it.  A datagram of at least one and fewer than
    [UDP_TX_PACKET_MAX_SIZE] bytes is read as a C string, that is up to its
    first NUL byte.  If that string is BOOST_ON the override is switched on
    and the relay state is left alone; if it is BOOST_OFF the override and
    the relay state are both switched off; any other string changes neither.
    In every case the first-time flag is set, so that the next pass sends
    both records whatever it measures. *)
Theorem udp_commands `{Libraries} (st : state) (i : loop_input) (d : datagram) :
  inbound i = Some d ->
  (0 < length (dg_payload d) < UDP_TX_PACKET_MAX_SIZE)%nat ->
  Z.of_nat (length (dg_payload d)) <= INT_MAX ->
  let before := fst (if gate (millis_gate i) st then process st (pass i) else (st, [])) in
  exists (st' : state) (out : list output),
    loop st i = Some (st', out)
    /\ firsttime st' = true
    /\ (c_string (dg_payload d) = list_ascii_of_string "BOOST_ON" ->
        shw_boost_override st' = true
        /\ shw_boost_state st' = shw_boost_state before)
    /\ (c_string (dg_payload d) = list_ascii_of_string "BOOST_OFF" ->
        shw_boost_override st' = false /\ shw_boost_state st' = false)
    /\ (c_string (dg_payload d) <> list_ascii_of_string "BOOST_ON" ->
        c_string (dg_payload d) <> list_ascii_of_string "BOOST_OFF" ->
        shw_boost_override st' = shw_boost_override before
        /\ shw_boost_state st' = shw_boost_state before)
    /\ (forall j : pass_input,
          existsb is_temp_record (snd (process st' j)) = true
          /\ existsb is_flow_record (snd (process st' j)) = true).
Proof.
  intros Hin Hlen Hint. cbv zeta. unfold loop, poll.
  set (r := if gate (millis_gate i) st then process st (pass i) else (st, [])).
  rewrite Hin. cbn [parsePacket].
  rewrite to_int_id by (unfold is_int, INT_MIN, INT_MAX in *; lia).
  destruct (Z.eqb_spec (Z.of_nat (length (dg_payload d))) 0) as [Hzero|_]; [lia|].
  destruct (receive_command (fst r) d (stack i)) as (st' & -> & Hfirst & Hudp & Hon & Hoff & Hother);
    [lia | exact Hint |].
  exists st', (snd r). split; [reflexivity|]. split; [exact Hfirst|].
  split; [exact Hon|]. split; [exact Hoff|]. split; [exact Hother|].
  intros j. now apply process_reports.
Qed.

Lemma udp_commands_witness :
  exists (st' : state) (out : list output),
    loop Bench.warm_on (Bench.with_packet 500 (list_ascii_of_string "BOOST_OFF"))
    = Some (st', out)
    /\ firsttime st' = true
    /\ shw_boost_override st' = false /\ shw_boost_state st' = false.
Proof.
  destruct (udp_commands Bench.warm_on
              (Bench.with_packet 500 (list_ascii_of_string "BOOST_OFF"))
              (Bench.from (list_ascii_of_string "BOOST_OFF")))
    as (st' & out & Hloop & Hfirst & _ & Hoff & _).
  - reflexivity.
  - vm_compute. split; apply le_n || (repeat constructor).
  - vm_compute. intros Hc. discriminate Hc.
  - exists st', out. split; [exact Hloop|]. split; [exact Hfirst|].
    apply Hoff. vm_compute. reflexivity.
Defined.

(** BOOST_ON followed by a NUL byte is neither of the two commands, yet it
    switches the override on; and an empty datagram is not noticed at all:
    the first-time flag stays off. *)
Lemma command_with_trailing_nul :
  let payload := (list_ascii_of_string "BOOST_ON" ++ [NUL])%list in
  payload <> list_ascii_of_string "BOOST_ON"
  /\ payload <> list_ascii_of_string "BOOST_OFF"
  /\ shw_boost_override Bench.boot = false
  /\ option_map (fun r => shw_boost_override (fst r))
       (loop Bench.boot (Bench.with_packet 500 payload)) = Some true
  /\ firsttime Bench.warm_on = false
  /\ option_map (fun r => firsttime (fst r))
       (loop Bench.warm_on (Bench.with_packet 500 [])) = Some false.
Proof.
  cbv zeta. split; [intros Hc; discriminate Hc|]. split; [intros Hc; discriminate Hc|].
  vm_compute. repeat split.
Qed.

(** ** The terminator of the packet buffer *)

(** Whenever [loop] takes in a datagram as long as the buffer or longer,
    the terminator lands outside the buffer. *)
Lemma loop_packet_overflow `{Libraries} (st : state) (i : loop_input) (d : datagram) :
  inbound i = Some d ->
  (0 < length (dg_payload d))%nat ->
  (UDP_TX_PACKET_MAX_SIZE <= length (dg_payload d))%nat ->
  Z.of_nat (length (dg_payload d)) <= INT_MAX ->
  parsePacket (inbound i) <> 0 /\ loop st i = None.
Proof.
  intros Hin Hpos Hbig Hint. unfold loop, poll. rewrite Hin. cbn [parsePacket].
  rewrite to_int_id by (unfold is_int, INT_MIN, INT_MAX in *; lia).
  destruct (Z.eqb_spec (Z.of_nat (length (dg_payload d))) 0) as [Hzero|Hnz]; [lia|].
  split; [exact Hnz|]. now rewrite packet_overflow.
Qed.

(** C10 fails on the code.  A datagram of 24 bytes, the size of the buffer
    in the Arduino Ethernet library, is accepted by [loop] (its size is not
    zero) and the terminator is stored at index 24, one past the last slot
    of the buffer. *)
Theorem terminator_past_buffer :
  let payload := repeat "A"%char 24 in
  UDP_TX_PACKET_MAX_SIZE = 24%nat
  /\ parsePacket (Some (Bench.from payload)) = 24
  /\ store (udp_read payload (map (fun _ => "x"%char) (seq 0 UDP_TX_PACKET_MAX_SIZE))
              UDP_TX_PACKET_MAX_SIZE)
       (parsePacket (Some (Bench.from payload))) NUL = None
  /\ loop Bench.boot (Bench.with_packet 500 payload) = None.
Proof. cbv zeta. vm_compute. repeat split. Qed.
(** * Further properties of the sketch *)

Import Runs.

#[global] Arguments loop : simpl never.

(** ** What holds in every reachable state *)

(** X1.  In every state the sketch can reach, the write offset indexes the
    ring buffers, both buffers hold ten slots, every slot and both stored
    averages lie strictly between -5.00 and 100.00 degrees, and each stored
    average is the truncated mean of its buffer. *)
Theorem reachable_temperatures `{Libraries} (st : state) (ch : channel) :
  reachable st ->
  0 <= shw_ringbuf_offset st < 10
  /\ length (ringbuf ch st) = 10%nat
  /\ Forall (fun t => -500 < t < 10000) (ringbuf ch st)
  /\ -500 < last_avg ch st < 10000
  /\ last_avg ch st = Z.quot (total (ringbuf ch st)) 10.
Proof.
  intros Hreach. pose proof (reachable_invariant st Hreach) as Hinv.
  pose proof (last_avg_sane st ch Hinv) as Hsane.
  apply invariant_spec in Hinv as (Hoff & Hlen & Hslots & Havg).
  split; [exact Hoff|]. split; [apply Hlen|]. split; [apply Hslots|].
  split; [exact Hsane|]. rewrite Havg.
  apply ringbuf_avg_total; [apply Hlen | apply sane_is_int, Hslots].
Qed.

Lemma reachable_temperatures_witness :
  last_avg Vat Bench.boot = Z.quot (total (ringbuf Vat Bench.boot)) 10.
Proof.
  refine (proj2 (proj2 (proj2 (proj2 (reachable_temperatures Bench.boot Vat _))))).
  apply reach_setup.
Defined.

(** X2.  The flag [haveremoteudp] is set in every reachable state: no
    record is ever held back for want of a destination. *)
Theorem reachable_has_destination `{Libraries} (st : state) :
  reachable st -> haveremoteudp st = true.
Proof.
  induction 1 as [i|st st' i out _ IH Hloop]; [reflexivity|].
  revert Hloop. unfold loop, poll.
  set (r := if gate (millis_gate i) st then process st (pass i) else (st, [])).
  assert (Hr : haveremoteudp (fst r) = true).
  { subst r. destruct (gate _ _); [|exact IH].
    destruct (process_udp st (pass i)) as (_ & _ & ->). exact IH. }
  destruct (parsePacket (inbound i) =? 0); [intros [= Hst]; now rewrite Hst in Hr|].
  destruct (inbound i) as [d|]; [|intros [= Hst]; now rewrite Hst in Hr].
  unfold receive. destruct (store _ _ _); [|discriminate].
  destruct (strcmp _ _ =? 0); [|destruct (strcmp _ _ =? 0)]; intros [= <- _]; reflexivity.
Qed.

Lemma reachable_has_destination_witness : haveremoteudp Bench.boot = true.
Proof. apply (reachable_has_destination Bench.boot). apply reach_setup. Defined.

(** ** Datagrams *)

(** X3.  A datagram touches nothing the sketch measures: ring buffers,
    offset, averages, the relay state last reported, pulse counters, flow
    rate, volumes and the time of the last pass are as before. *)
Theorem receive_keeps_measurements `{Libraries} (st st' : state) (d : datagram)
    (stk : nat -> ascii) :
  receive st d stk = Some st' -> measurements st' = measurements st.
Proof.
  unfold receive. destruct (store _ _ _); [|discriminate].
  destruct (strcmp _ _ =? 0); [|destruct (strcmp _ _ =? 0)]; intros [= <-]; reflexivity.
Qed.

Lemma receive_keeps_measurements_witness :
  match receive Bench.warm_on (Bench.from (list_ascii_of_string "BOOST_OFF"))
          (fun _ => "x"%char) with
  | Some st' => measurements st' = measurements Bench.warm_on
  | None => False
  end.
Proof.
  destruct (receive Bench.warm_on (Bench.from (list_ascii_of_string "BOOST_OFF"))
              (fun _ => "x"%char)) as [st'|] eqn:Hrecv.
  - exact (receive_keeps_measurements Bench.warm_on st' _ _ Hrecv).
  - vm_compute in Hrecv. discriminate Hrecv.
Defined.

(** X4.  Records go to whoever spoke last: after a datagram from
    [ip]:[port] every record of the following pass is addressed to
    [ip]:[port]. *)
Theorem records_follow_sender `{Libraries} (st st' : state) (d : datagram)
    (stk : nat -> ascii) (j : pass_input) :
  receive st d stk = Some st' ->
  Forall (addressed_to (dg_ip d) (dg_port d)) (snd (process st' j)).
Proof.
  intros Hrecv.
  assert (Hdest : remoteIP st' = dg_ip d /\ remotePort st' = dg_port d).
  { revert Hrecv. unfold receive. destruct (store _ _ _); [|discriminate].
    destruct (strcmp _ _ =? 0); [|destruct (strcmp _ _ =? 0)];
      intros [= <-]; split; reflexivity. }
  destruct Hdest as [Hip Hport].
  unfold process. cbn [snd]. rewrite Hip, Hport.
  repeat (apply Forall_app_2);
    match goal with
    | |- Forall _ (if ?c then _ else _) => destruct c
    end;
    repeat constructor.
Qed.

Lemma records_follow_sender_witness :
  match receive Bench.boot (Bench.from (list_ascii_of_string "hello"))
          (fun _ => "x"%char) with
  | Some st' =>
      Forall (addressed_to (192, 168, 2, 7) 8888)
        (snd (process st' (Bench.pass_at 22 Bench.pad_25_00 Bench.pad_25_00 0 2000)))
  | None => False
  end.
Proof.
  destruct (receive Bench.boot (Bench.from (list_ascii_of_string "hello"))
              (fun _ => "x"%char)) as [st'|] eqn:Hrecv.
  - exact (records_follow_sender Bench.boot st' _ _
             (Bench.pass_at 22 Bench.pad_25_00 Bench.pad_25_00 0 2000) Hrecv).
  - vm_compute in Hrecv. discriminate Hrecv.
Defined.



(** ** The override and the relay *)

(** X6.  A pass never switches the override on: if the override is active
    after a pass it was active before, the vat average of the pass is below
    46.00 degrees and the relay state is on. *)
Theorem override_after_pass `{Libraries} (st : state) (i : pass_input) :
  shw_boost_override (fst (process st i)) = true ->
  shw_boost_override st = true
  /\ avg_shw_vat_temp st i < 4600
  /\ shw_boost_state (fst (process st i)) = true.
Proof.
  pose proof (process_boost st i) as Hafter. revert Hafter.
  generalize (shw_boost_state (fst (process st i)))
             (shw_boost_override (fst (process st i)))
             (avg_shw_vat_temp st i) (hour i).
  intros b' o' T h. unfold boost_logic, BOOST_OFF_TEMP.
  destruct (Z.leb_spec 4600 T) as [Hoff|Hoff]; [intros [= -> ->]; discriminate|].
  destruct (shw_boost_override st); cbn [orb].
  - intros [= -> ->] _. auto.
  - destruct (_ || _); intros [= -> ->]; discriminate.
Qed.

Lemma override_after_pass_witness :
  shw_boost_override Bench.hot_override = true
  /\ avg_shw_vat_temp Bench.hot_override
       (Bench.pass_at 22 Bench.pad_43_00 Bench.pad_43_00 0 2000) < 4600
  /\ shw_boost_state
       (fst (process Bench.hot_override
               (Bench.pass_at 22 Bench.pad_43_00 Bench.pad_43_00 0 2000))) = true.
Proof.
  apply (override_after_pass Bench.hot_override
           (Bench.pass_at 22 Bench.pad_43_00 Bench.pad_43_00 0 2000)).
  vm_compute. reflexivity.
Defined.

(** X7.  The relay pin follows the relay state.  A pass writes the pin at
    most once, exactly when the new state differs from the level last
    written, and with the new state; so after any run of [loop] calls the
    level of the pin is the one recorded in [last_shw_boost_state], and
    right after a pass it is [shw_boost_state]. *)
Theorem relay_follows_state `{Libraries} :
  (forall (st : state) (i : pass_input),
      let st' := fst (process st i) in
      last_shw_boost_state st' = shw_boost_state st'
      /\ List.filter is_relay_write
                (snd (process st i))
         = if Bool.eqb (shw_boost_state st') (last_shw_boost_state st)
           then [] else [RelayPin (shw_boost_state st')])
  /\ (forall (ins : list loop_input) (st st' : state) (out : list output),
        run st ins = Some (st', out) ->
        relay_level (last_shw_boost_state st) out = last_shw_boost_state st').
Proof.
  assert (Hpass : forall (st : state) (i : pass_input),
             last_shw_boost_state (fst (process st i)) = shw_boost_state (fst (process st i))
             /\ List.filter is_relay_write
                       (snd (process st i))
                = (if Bool.eqb (shw_boost_state (fst (process st i))) (last_shw_boost_state st)
                   then [] else [RelayPin (shw_boost_state (fst (process st i)))])
             /\ relay_level (last_shw_boost_state st) (snd (process st i))
                = last_shw_boost_state (fst (process st i))).
  { intros st i. unfold process.
    cbn [fst snd last_shw_boost_state shw_boost_state].
    unfold temp_report. generalize (fst (boost_after st i)). intros b.
    unfold relay_level. rewrite !List.filter_app, !fold_left_app.
    destruct (Bool.eqb b (last_shw_boost_state st)) eqn:Hsame.
    - apply Bool.eqb_prop in Hsame. subst b.
      repeat match goal with
             | |- context [if ?c then [?x] else []] => destruct c
             end; cbn; repeat split; try reflexivity;
        match goal with |- context [if ?c then _ else _] => now destruct c end.
    - cbn [negb]. rewrite !orb_true_r. cbn [orb andb].
      repeat match goal with
             | |- context [if ?c then [?x] else []] => destruct c
             end; cbn; repeat split; reflexivity. }
  split.
  - intros st i. cbv zeta. destruct (Hpass st i) as (H1 & H2 & _). now split.
  - induction ins as [|i ins IH]; intros st st' out; cbn [run].
    + intros [= <- <-]. reflexivity.
    + destruct (loop st i) as [[st1 out1]|] eqn:Hloop; [|discriminate].
      destruct (run st1 ins) as [[st2 out2]|] eqn:Hrun; [|discriminate].
      intros [= <- <-]. unfold relay_level in *. rewrite fold_left_app.
      rewrite <- (IH st1 st2 out2 Hrun). f_equal.
      revert Hloop. unfold loop, poll.
      set (r := if gate (millis_gate i) st then process st (pass i) else (st, [])).
      assert (Hr : fold_left (fun l o => match o with RelayPin high => high | _ => l end)
                     (snd r) (last_shw_boost_state st) = last_shw_boost_state (fst r)).
      { subst r. destruct (gate _ _); [apply Hpass | reflexivity]. }
      destruct (parsePacket (inbound i) =? 0);
        [intros [= Hst]; rewrite Hst in Hr; exact Hr|].
      destruct (inbound i) as [d|]; [|intros [= Hst]; rewrite Hst in Hr; exact Hr].
      destruct (receive (fst r) d (stack i)) as [st3|] eqn:Hrecv; [|discriminate].
      intros [= <- <-]. rewrite Hr.
      symmetry. revert Hrecv. unfold receive. destruct (store _ _ _); [|discriminate].
      destruct (strcmp _ _ =? 0); [|destruct (strcmp _ _ =? 0)]; intros [= <-]; reflexivity.
Qed.

Lemma relay_follows_state_witness :
  match run Bench.boot [Bench.quiet 1001; Bench.with_packet 1500 (list_ascii_of_string "BOOST_ON");
                        Bench.quiet 3000] with
  | Some (st', out) =>
      relay_level (last_shw_boost_state Bench.boot) out = last_shw_boost_state st'
  | None => False
  end.
Proof.
  destruct (@relay_follows_state avr_libs) as [_ Hrun].
  destruct (run Bench.boot _) as [[st' out]|] eqn:Hr.
  - exact (Hrun _ _ _ _ Hr).
  - vm_compute in Hr. discriminate Hr.
Defined.

(** ** The once-per-second check and the roll-over of [millis()] *)

(** X8.  The check measures the time since the last pass correctly across
    the roll-over of the 32-bit millisecond clock: [spent] ms after the last
    pass, wherever the clock then stands, the pass runs exactly when
    [spent] exceeds 1000. *)
Theorem gate_across_rollover (st : state) (spent : Z) :
  0 <= shw_hotwater_flowsensor_oldtime st < 4294967296 ->
  0 <= spent < 4294967296 ->
  gate (to_ulong (shw_hotwater_flowsensor_oldtime st + spent)) st = (1000 <? spent).
Proof.
  intros Hold Hspent. unfold gate. f_equal.
  generalize (shw_hotwater_flowsensor_oldtime st) Hold. intros old Hold'.
  unfold to_ulong, wrapu. change (2 ^ 32) with 4294967296.
  rewrite Z.mod_mod by lia. rewrite Zminus_mod_idemp_l.
  replace (old + spent - old) with spent by lia. apply Z.mod_small. lia.
Qed.

Lemma gate_across_rollover_witness :
  gate (to_ulong (shw_hotwater_flowsensor_oldtime
                    (fst (process Bench.boot
                            (Bench.pass_at 22 Bench.pad_25_00 Bench.pad_25_00 0
                               4294966796))) + 1100))
       (fst (process Bench.boot
               (Bench.pass_at 22 Bench.pad_25_00 Bench.pad_25_00 0 4294966796)))
  = true.
Proof.
  rewrite gate_across_rollover.
  - reflexivity.
  - vm_compute. split; [intros Hc; discriminate Hc | reflexivity].
  - vm_compute. split; [intros Hc; discriminate Hc | reflexivity].
Defined.

(** ** Pulse counters *)

Lemma boost_count_hotwater_runs (n : nat) (st : state) :
  shw_boost_pulsecount (Nat.iter n shw_hotwater_interrupt_handler st)
  = shw_boost_pulsecount st.
Proof.
  induction n as [|n IH]; [reflexivity|].
  rewrite Nat.iter_succ. unfold shw_hotwater_interrupt_handler at 1.
  cbn [shw_boost_pulsecount]. exact IH.
Qed.

Lemma boost_count_boostpulse_runs (n : nat) (st : state) :
  shw_boost_pulsecount (Nat.iter n shw_boostpulse_interrupt_handler st)
  = Nat.iter n (fun c => to_uint (c + 1)) (shw_boost_pulsecount st).
Proof.
  induction n as [|n IH]; [reflexivity|].
  rewrite !Nat.iter_succ. unfold shw_boostpulse_interrupt_handler at 1.
  cbn [shw_boost_pulsecount]. now rewrite IH.
Qed.

(** X9.  Each handler counts its own pulses and nothing else: the two
    handlers commute, and after any number of runs the drains find the
    counters advanced by the number of runs modulo 65536, the width of an
    [unsigned int] (so a burst of 65536 pulses between two drains reads as
    none). *)
Theorem handlers_count_pulses (st : state) (i : pass_input) :
  0 <= shw_boost_pulsecount st < 65536 ->
  0 <= shw_hotwater_flowsensor_pulsecount st < 65536 ->
  shw_boostpulses st i = (shw_boost_pulsecount st + Z.of_nat (boost_irqs i)) mod 65536
  /\ flow_pulses st i
     = (shw_hotwater_flowsensor_pulsecount st + Z.of_nat (flow_irqs i)) mod 65536
  /\ shw_hotwater_interrupt_handler (shw_boostpulse_interrupt_handler st)
     = shw_boostpulse_interrupt_handler (shw_hotwater_interrupt_handler st).
Proof.
  intros Hb Hf. split; [|split].
  - unfold shw_boostpulses, interrupts.
    rewrite boost_count_hotwater_runs, boost_count_boostpulse_runs.
    now rewrite count_up.
  - now rewrite flow_pulses_count.
  - reflexivity.
Qed.

Lemma handlers_count_pulses_witness :
  flow_pulses Bench.boot
    {| hour := 0; collector_bus := Bench.steady Bench.pad_25_00;
       vat_bus := Bench.steady Bench.pad_25_00;
       boost_irqs := 3; flow_irqs := Z.to_nat 65536; millis_rate := 0; millis_mark := 0 |}
  = (0 + Z.of_nat (Z.to_nat 65536)) mod 65536.
Proof.
  refine (proj1 (proj2 (handlers_count_pulses Bench.boot _ _ _)));
    vm_compute; split; (intros Hc; discriminate Hc) || reflexivity.
Defined.

(** ** Start-up *)

(** X10.  [setup] primes each ring buffer with ten copies of the channel's
    first reading, or of 0 when that reading fails; and the first pass sends
    both records whatever it measures. *)
Theorem setup_primes `{Libraries} (i : setup_input) (j : pass_input) :
  let bus ch := match ch with
                | Collector => setup_collector_bus i
                | Vat => setup_vat_bus i
                end in
  (forall ch : channel,
      ringbuf ch (setup i) = replicate 10 (last_avg ch (setup i))
      /\ last_avg ch (setup i) = rd_temp (getSaneCurrentTemp (bus ch) 0)
      /\ (rd_ret (getSaneCurrentTemp (bus ch) 0) = 0 -> last_avg ch (setup i) = 0))
  /\ existsb is_temp_record (snd (process (setup i) j)) = true
  /\ existsb is_flow_record (snd (process (setup i) j)) = true.
Proof.
  cbv zeta. split.
  - intros ch.
    assert (Hfail : forall bus, rd_ret (getSaneCurrentTemp bus 0) = 0 ->
                                rd_temp (getSaneCurrentTemp bus 0) = 0).
    { intros bus. unfold getSaneCurrentTemp.
      destruct (attempts_outcome bus 0 5 0) as [[-> _]|[_ ->]]; [discriminate | reflexivity]. }
    destruct ch; unfold setup;
      cbn [ringbuf last_avg shw_collector_temp_ringbuf shw_vat_temp_ringbuf
           last_avg_shw_collector_temp last_avg_shw_vat_temp];
      (split; [reflexivity|]; split; [reflexivity | apply Hfail]).
  - apply process_reports; reflexivity.
Qed.

Lemma setup_primes_witness :
  last_avg Vat (setup {| setup_collector_bus := Bench.steady Bench.pad_25_00;
                         setup_vat_bus := Bench.steady (Bench.corrupt x90 x01) |}) = 0.
Proof.
  pose proof (setup_primes {| setup_collector_bus := Bench.steady Bench.pad_25_00;
                              setup_vat_bus := Bench.steady (Bench.corrupt x90 x01) |}
                (Bench.pass_at 22 Bench.pad_25_00 Bench.pad_25_00 0 2000)) as Hs.
  cbv zeta in Hs. destruct Hs as [Hs _].
  refine (proj2 (proj2 (Hs Vat)) _). vm_compute. reflexivity.
Defined.

(** ** When records are sent *)

Section Records.
Context `{Libraries}.

Lemma process_last_boost (st : state) (i : pass_input) :
  last_shw_boost_state (fst (process st i)) = shw_boost_state (fst (process st i)).
Proof.
  unfold process. cbn [fst last_shw_boost_state shw_boost_state].
  unfold temp_report. generalize (fst (boost_after st i)). intros b.
  destruct (Bool.eqb b (last_shw_boost_state st)) eqn:Hsame.
  - apply Bool.eqb_prop in Hsame. subst b.
    match goal with |- (if ?c then _ else _) = _ => now destruct c end.
  - cbn [negb]. now rewrite !orb_true_r.
Qed.

Lemma process_boost_state (st : state) (i : pass_input) :
  shw_boost_state (fst (process st i)) = fst (boost_after st i).
Proof. unfold process. cbn [fst shw_boost_state]. reflexivity. Qed.

Lemma temp_record_sent (st : state) (i : pass_input) :
  existsb is_temp_record (snd (process st i)) = temp_report st i && haveremoteudp st.
Proof.
  unfold process. cbn [snd]. rewrite !existsb_app.
  destruct (temp_report st i && haveremoteudp st);
    destruct (flow_report st i && haveremoteudp st);
    destruct (Bool.eqb _ _); reflexivity.
Qed.

Lemma flow_record_sent (st : state) (i : pass_input) :
  existsb is_flow_record (snd (process st i)) = flow_report st i && haveremoteudp st.
Proof.
  unfold process. cbn [snd]. rewrite !existsb_app.
  destruct (temp_report st i && haveremoteudp st);
    destruct (flow_report st i && haveremoteudp st);
    destruct (Bool.eqb _ _); reflexivity.
Qed.

End Records.

Lemma report_condition (c lc v lv p : Z) (b lb : bool) :
  false || negb (c =? lc) || negb (v =? lv) || negb (Bool.eqb b lb) || negb (p =? 0) = true
  <-> ((c <> lc \/ v <> lv) \/ b <> lb \/ p <> 0).
Proof.
  destruct (Z.eqb_spec c lc), (Z.eqb_spec v lv), (Z.eqb_spec p 0), b, lb; cbn;
    split; intros Hx; try reflexivity; try discriminate Hx;
    try (left; left; assumption); try (left; right; assumption);
    try (right; left; discriminate); try (right; right; assumption);
    destruct Hx as [[Hx|Hx]|[Hx|Hx]]; congruence.
Qed.

(** In a state a pass has left, the temperature record is sent exactly on
    a change against that state. *)
Lemma temp_record_after_pass `{Libraries} (st1 : state) (i : pass_input) :
  firsttime st1 = false -> haveremoteudp st1 = true ->
  last_shw_boost_state st1 = shw_boost_state st1 ->
  existsb is_temp_record (snd (process st1 i)) = true
  <-> ((exists ch : channel, smoothed ch st1 i <> last_avg ch st1)
       \/ shw_boost_state (fst (process st1 i)) <> shw_boost_state st1
       \/ shw_boostpulses st1 i <> 0).
Proof.
  intros Hfirst Hudp Hlast. rewrite temp_record_sent, Hudp, andb_true_r.
  unfold temp_report. rewrite Hfirst, Hlast, <- process_boost_state.
  etransitivity; [apply report_condition|].
  split.
  - intros [[Hd|Hd]|Hrest]; [left; exists Collector|left; exists Vat|right; exact Hrest];
      cbv beta iota delta [smoothed last_avg]; exact Hd.
  - intros [[[|] Hd]|Hrest]; [left; left|left; right|right; exact Hrest];
      intros He; apply Hd; cbv beta iota delta [smoothed last_avg]; exact He.
Qed.

(** X11.  After the first pass a temperature record is sent only on change:
    a pass that follows another sends the record exactly when one of the two
    averages differs from the previous pass, or the relay state changed, or
    the energy meter pulsed. *)
Theorem temp_record_on_change `{Libraries} (st : state) (i1 i2 : pass_input) :
  invariant st = true -> haveremoteudp st = true ->
  let st1 := fst (process st i1) in
  existsb is_temp_record (snd (process st1 i2)) = true
  <-> ((exists ch : channel, smoothed ch st1 i2 <> smoothed ch st i1)
       \/ shw_boost_state (fst (process st1 i2)) <> shw_boost_state st1
       \/ shw_boostpulses st1 i2 <> 0).
Proof.
  intros Hinv Hudp. cbv zeta.
  assert (Hlast : forall ch, last_avg ch (fst (process st i1)) = smoothed ch st i1).
  { intros ch. apply process_last_avg.
    pose proof (process_invariant st i1 Hinv) as Hinv1.
    pose proof (last_avg_sane _ ch Hinv1) as Hs.
    pose proof Hinv1 as (_ & _ & _ & Havg)%invariant_spec.
    rewrite smoothed_ringbuf, <- Havg. unfold sane, is_int, INT_MIN, INT_MAX in *. lia. }
  rewrite temp_record_after_pass.
  - split; (intros [[ch Hd]|Hrest]; [left; exists ch|right; exact Hrest]).
    + now rewrite <- Hlast.
    + now rewrite Hlast.
  - apply process_firsttime.
  - destruct (process_udp st i1) as (_ & _ & ->). exact Hudp.
  - apply process_last_boost.
Qed.

Lemma temp_record_on_change_witness :
  existsb is_temp_record
    (snd (process (fst (process Bench.boot
                          (Bench.pass_at 22 Bench.pad_25_00 Bench.pad_25_00 0 2000)))
            (Bench.pass_at 22 Bench.pad_25_00 Bench.pad_26_00 0 4000))) = true.
Proof.
  pose proof (temp_record_on_change Bench.boot
                (Bench.pass_at 22 Bench.pad_25_00 Bench.pad_25_00 0 2000)
                (Bench.pass_at 22 Bench.pad_25_00 Bench.pad_26_00 0 4000)) as Hw.
  cbv zeta in Hw. refine (proj2 (Hw _ _) _).
  - vm_compute. reflexivity.
  - vm_compute. reflexivity.
  - left. exists Vat. vm_compute. intros Hc. discriminate Hc.
Defined.

(** X12.  After the first pass no flow record is sent for a pass without
    pulses. *)
Theorem no_flow_record_without_pulses `{Libraries} (st : state) (i : pass_input) :
  firsttime st = false -> 0 < elapsed_ms st i -> flow_pulses st i = 0 ->
  existsb is_flow_record (snd (process st i)) = false.
Proof.
  intros Hfirst Hel Hnone. rewrite flow_record_sent.
  unfold flow_report. rewrite Hfirst, Hnone, flow_rate_no_pulses by exact Hel.
  reflexivity.
Qed.

Lemma no_flow_record_without_pulses_witness :
  existsb is_flow_record
    (snd (process Bench.warm_on
            (Bench.pass_at 22 Bench.pad_43_00 Bench.pad_43_00 0 2000))) = false.
Proof.
  apply (no_flow_record_without_pulses Bench.warm_on
           (Bench.pass_at 22 Bench.pad_43_00 Bench.pad_43_00 0 2000));
    vm_compute; reflexivity.
Defined.

(** ** How fast the buffer can move *)

(** X13.  The buffer is slew-limited: if every slot of a channel lies
    between [lo] and [hi], then after [k] passes, whatever the sensor says,
    every slot and the average lie between [lo - 100 k] and
    [hi + 100 k]. *)
Theorem buffer_slew_limited `{Libraries} (ins : list pass_input) (st : state)
    (ch : channel) (lo hi : Z) :
  invariant st = true ->
  Forall (fun t => lo <= t <= hi) (ringbuf ch st) ->
  let k := Z.of_nat (length ins) in
  Forall (fun t => lo - 100 * k <= t <= hi + 100 * k) (ringbuf ch (passes st ins))
  /\ lo - 100 * k <= last_avg ch (passes st ins) <= hi + 100 * k.
Proof.
  assert (Hmean : forall (s : state) (l h : Z),
             invariant s = true -> Forall (fun t => l <= t <= h) (ringbuf ch s) ->
             l <= last_avg ch s <= h).
  { intros s l h Hinv Hall.
    pose proof Hinv as (_ & Hlen & Hsane & Havg)%invariant_spec.
    rewrite Havg, ringbuf_avg_total by auto using sane_is_int.
    apply quot_mean_bounds. pose proof (total_bounds _ _ _ Hall) as Hb.
    rewrite Hlen in Hb. exact Hb. }
  cbv zeta. revert st lo hi.
  induction ins as [|i ins IH]; intros st lo hi Hinv Hall; cbn [passes length].
  - change (Z.of_nat 0) with 0. rewrite !Z.mul_0_r, !Z.sub_0_r, !Z.add_0_r.
    split; [exact Hall|now apply Hmean].
  - pose proof (Hmean st lo hi Hinv Hall) as Ha.
    pose proof (raw_sample_sane st i ch Hinv) as Hr.
    pose proof (last_avg_sane st ch Hinv) as Hs.
    assert (Hfed : lo - 100 <= fed ch st i <= hi + 100).
    { rewrite fed_sanitise.
      destruct (sanitise_spec (raw_sample ch st i) (last_avg ch st)) as (Hnear & _);
        unfold sane, is_int, INT_MIN, INT_MAX in *; lia. }
    assert (Hall' : Forall (fun t => lo - 100 <= t <= hi + 100)
                      (ringbuf ch (fst (process st i)))).
    { rewrite process_ringbuf. unfold ringbuf_write. apply Forall_insert; [|exact Hfed].
      eapply Forall_impl; [exact Hall|]. intros t Ht. cbn beta in Ht |- *. lia. }
    destruct (IH (fst (process st i)) (lo - 100) (hi + 100)
                (process_invariant st i Hinv) Hall') as [Hslots Havg].
    rewrite Nat2Z.inj_succ. split.
    + eapply Forall_impl; [exact Hslots|]. intros t Ht. cbn beta in Ht |- *. lia.
    + lia.
Qed.

Lemma buffer_slew_limited_witness :
  2500 - 100 * Z.of_nat (length Bench.ten_passes)
  <= last_avg Vat (passes Bench.boot Bench.ten_passes)
  <= 2500 + 100 * Z.of_nat (length Bench.ten_passes).
Proof.
  pose proof (buffer_slew_limited Bench.ten_passes Bench.boot Vat 2500 2500) as Hw.
  cbv zeta in Hw. refine (proj2 (Hw _ _)).
  - vm_compute. reflexivity.
  - vm_compute. repeat constructor; intros Hc; discriminate Hc.
Defined.

(** ** Exhaustive checks over bytes *)

Lemma forallb_below (P : Z -> bool) (n : nat) :
  forallb P (map Z.of_nat (seq 0 n)) = true ->
  forall z : Z, 0 <= z < Z.of_nat n -> P z = true.
Proof.
  intros Hall z Hz. rewrite forallb_forall in Hall. apply Hall.
  apply in_map_iff. exists (Z.to_nat z). split; [lia|]. apply in_seq. lia.
Qed.

Lemma every_byte (P : byte -> bool) :
  forallb (fun n => match Byte.of_N (N.of_nat n) with Some b => P b | None => true end)
    (seq 0 256) = true ->
  forall b : byte, P b = true.
Proof.
  intros Hall b. rewrite forallb_forall in Hall.
  specialize (Hall (N.to_nat (Byte.to_N b))).
  rewrite N2Nat.id, Byte.of_to_N in Hall. apply Hall.
  apply in_seq. pose proof (Byte.to_N_bounded b). lia.
Qed.

Lemma every_two_bytes (Q : byte -> byte -> bool) :
  forallb (fun n => match Byte.of_N (N.of_nat n) with
                    | Some hi =>
                        forallb (fun m => match Byte.of_N (N.of_nat m) with
                                          | Some lo => Q hi lo
                                          | None => true
                                          end) (seq 0 256)
                    | None => true
                    end) (seq 0 256) = true ->
  forall hi lo : byte, Q hi lo = true.
Proof.
  intros Hall hi lo.
  apply (every_byte (fun lo => Q hi lo)).
  apply (every_byte (fun hi => forallb (fun m => match Byte.of_N (N.of_nat m) with
                                                 | Some lo => Q hi lo
                                                 | None => true
                                                 end) (seq 0 256))).
  exact Hall.
Qed.

Lemma byte_val_bound (b : byte) : 0 <= byte_val b < 256.
Proof. unfold byte_val. pose proof (Byte.to_N_bounded b). lia. Qed.

(** ** The conversion of the sensor reading *)

Lemma decode_pad (data : scratchpad) :
  decode data = decode (Bench.pad (data 0%nat) (data 1%nat)).
Proof. reflexivity. Qed.

Lemma raw16_pad (data : scratchpad) :
  raw16 data = raw16 (Bench.pad (data 0%nat) (data 1%nat)).
Proof. reflexivity. Qed.

(** X14.  Where 16 bits are enough the conversion is exact: for a raw
    reading of at most 5242 sixteenths of a degree either side of zero, the
    result is the reading in hundredths of a degree, truncated toward
    zero. *)
Theorem decode_exact (data : scratchpad) :
  -5242 <= raw16 data <= 5242 ->
  decode data = Z.quot (raw16 data * 100) 16.
Proof.
  intros Hraw. rewrite decode_pad. rewrite raw16_pad in Hraw |- *.
  generalize (data 1%nat) (data 0%nat) Hraw. clear data Hraw. intros hi lo Hraw.
  assert (Hall : implb ((-5242 <=? raw16 (Bench.pad lo hi)) && (raw16 (Bench.pad lo hi) <=? 5242))
                   (decode (Bench.pad lo hi) =? Z.quot (raw16 (Bench.pad lo hi) * 100) 16)
                 = true).
  { apply (every_two_bytes
             (fun hi lo =>
                implb ((-5242 <=? raw16 (Bench.pad lo hi)) && (raw16 (Bench.pad lo hi) <=? 5242))
                  (decode (Bench.pad lo hi) =? Z.quot (raw16 (Bench.pad lo hi) * 100) 16))).
    vm_compute. reflexivity. }
  destruct (Z.leb_spec (-5242) (raw16 (Bench.pad lo hi))) as [_|Hc]; [|lia].
  destruct (Z.leb_spec (raw16 (Bench.pad lo hi)) 5242) as [_|Hc]; [|lia].
  cbn [andb implb] in Hall. apply Z.eqb_eq in Hall. exact Hall.
Qed.

Lemma decode_exact_witness :
  decode Bench.pad_minus_5_00 = Z.quot (raw16 Bench.pad_minus_5_00 * 100) 16.
Proof.
  apply (decode_exact Bench.pad_minus_5_00). vm_compute.
  split; intros Hc; discriminate Hc.
Defined.

(** X15.  Which raw readings the range check lets through.  Besides the
    readings from -4.9375 C to 99.9375 C (raw -79 to 1599) these are the six
    bands of raw readings that the 16-bit arithmetic of the conversion folds
    into the same range. *)
Theorem accepted_readings (data : scratchpad) :
  in_range (decode data) = accepted_raw (raw16 data).
Proof.
  rewrite decode_pad, raw16_pad.
  generalize (data 1%nat) (data 0%nat). clear data. intros hi lo.
  apply Bool.eqb_prop.
  apply (every_two_bytes
           (fun hi lo => Bool.eqb (in_range (decode (Bench.pad lo hi)))
                           (accepted_raw (raw16 (Bench.pad lo hi))))).
  vm_compute. reflexivity.
Qed.

(** ** The window of the average *)

Section Window.
Context `{Libraries}.

Lemma feeds_snoc (ch : channel) (ins : list pass_input) (i : pass_input) (st : state) :
  feeds ch st (ins ++ [i]) = feeds ch st ins ++ [fed ch (passes st ins) i].
Proof.
  revert st. induction ins as [|j ins IH]; intros st; cbn [feeds passes app];
    [reflexivity|]. now rewrite IH.
Qed.

Lemma length_feeds (ch : channel) (ins : list pass_input) (st : state) :
  length (feeds ch st ins) = length ins.
Proof.
  revert st. induction ins as [|j ins IH]; intros st; cbn [feeds length];
    [reflexivity|]. now rewrite IH.
Qed.

Lemma feeds_sane (ch : channel) (ins : list pass_input) (st : state) :
  invariant st = true -> Forall sane (feeds ch st ins).
Proof.
  revert st. induction ins as [|j ins IH]; intros st Hinv; cbn [feeds]; constructor.
  - now apply fed_sane.
  - apply IH. now apply process_invariant.
Qed.

(** After [k <= 10] passes the [k] slots from the offset the first pass
    wrote at hold what the passes fed, in their order. *)
Lemma passes_feed (ch : channel) (ins : list pass_input) (st : state) :
  invariant st = true ->
  shw_ringbuf_offset (passes st ins)
  = (shw_ringbuf_offset st + Z.of_nat (length ins)) mod 10
  /\ ((length ins <= 10)%nat ->
      forall j : nat, (j < length ins)%nat ->
        ringbuf ch (passes st ins) !! Z.to_nat ((shw_ringbuf_offset st + Z.of_nat j) mod 10)
        = feeds ch st ins !! j).
Proof.
  intros Hinv. induction ins as [|i ins IH] using rev_ind.
  - cbn [passes length]. apply invariant_spec in Hinv as (Hoff & _).
    split; [rewrite Z.add_0_r, Z.mod_small; lia | intros _ j Hj; cbn in Hj; lia].
  - destruct IH as [Hoff Hslots].
    pose proof (passes_invariant ins st Hinv) as Hinv'.
    pose proof Hinv' as (Hoff' & Hlen' & _)%invariant_spec.
    pose proof Hinv as (Hoff0 & _)%invariant_spec.
    rewrite passes_snoc, feeds_snoc, length_app. cbn [length].
    split.
    + rewrite process_offset, ringbuf_advance_spec by exact Hoff'.
      rewrite Hoff, Z.add_mod_idemp_l by lia. f_equal. lia.
    + intros Hk j Hj. rewrite process_ringbuf. unfold ringbuf_write. rewrite Hoff.
      destruct (Nat.eq_dec j (length ins)) as [->|Hne].
      * rewrite list_lookup_insert_eq.
        -- rewrite lookup_app_r by (rewrite length_feeds; lia).
           rewrite length_feeds, Nat.sub_diag. reflexivity.
        -- rewrite Hlen'. unfold SHW_RINGBUF_NUM_ITEMS.
           pose proof (Z.mod_pos_bound (shw_ringbuf_offset st + Z.of_nat (length ins)) 10). lia.
      * rewrite list_lookup_insert_ne.
        -- rewrite lookup_app_l by (rewrite length_feeds; lia). apply Hslots; lia.
        -- intros Heq. apply Z2Nat.inj in Heq;
             [|apply Z.mod_pos_bound; lia|apply Z.mod_pos_bound; lia].
           revert Heq. generalize (shw_ringbuf_offset st) Hoff0. intros o Ho Heq.
           apply Hne. Z.div_mod_to_equations. lia.
Qed.

Lemma total_app (l k : list Z) : total (l ++ k) = total l + total k.
Proof. unfold total. induction l as [|x l IH]; cbn [foldr app]; lia. Qed.

Lemma total_rotate (n : nat) (l : list Z) : total (rotate n l) = total l.
Proof.
  unfold rotate.
  transitivity (total (take (n mod length l) l ++ drop (n mod length l) l));
    [rewrite !total_app; lia | now rewrite take_drop].
Qed.

End Window.

(** X16.  The average looks back exactly ten passes.  After ten passes the
    buffer holds the ten filtered samples of those passes and nothing older,
    in the order of the passes from the slot the first of them wrote, and
    the average sent is the truncated mean of those ten samples. *)
Theorem average_of_last_ten `{Libraries} (ch : channel) (ins : list pass_input)
    (st : state) :
  invariant st = true -> length ins = 10%nat ->
  ringbuf ch (passes st ins)
  = rotate (10 - Z.to_nat (shw_ringbuf_offset st)) (feeds ch st ins)
  /\ last_avg ch (passes st ins) = Z.quot (total (feeds ch st ins)) 10.
Proof.
  intros Hinv Hten.
  destruct (passes_feed ch ins st Hinv) as [_ Hslots].
  pose proof (passes_invariant ins st Hinv) as (_ & Hlen & Hsane & Havg)%invariant_spec.
  pose proof Hinv as (Hoff & _)%invariant_spec.
  assert (Hbuf : ringbuf ch (passes st ins)
                 = rotate (10 - Z.to_nat (shw_ringbuf_offset st)) (feeds ch st ins)).
  { apply list_eq. intros n. destruct (Nat.lt_ge_cases n 10) as [Hn|Hn].
    - rewrite lookup_rotate_r by (rewrite length_feeds; lia).
      unfold rotate_nat_add. rewrite length_feeds, Hten.
      specialize (Hslots ltac:(lia)
                    (Z.to_nat ((Z.of_nat n - shw_ringbuf_offset st) mod 10))).
      rewrite Hten in Hslots.
      pose proof (Z.mod_pos_bound (Z.of_nat n - shw_ringbuf_offset st) 10 ltac:(lia)) as Hm.
      rewrite Z2Nat.id in Hslots by lia.
      replace ((shw_ringbuf_offset st + (Z.of_nat n - shw_ringbuf_offset st) mod 10) mod 10)
        with (Z.of_nat n) in Hslots
        by (revert Hoff; generalize (shw_ringbuf_offset st); intros o Ho;
            Z.div_mod_to_equations; lia).
      rewrite Nat2Z.id in Hslots. rewrite Hslots by lia. f_equal. f_equal.
      revert Hoff. generalize (shw_ringbuf_offset st). intros o Ho.
      replace (Z.of_nat (10 - Z.to_nat o)) with (10 - o) by lia.
      change (Z.of_nat 10) with 10. Z.div_mod_to_equations. lia.
    - rewrite !lookup_ge_None_2; [reflexivity | rewrite length_rotate, length_feeds; lia |].
      rewrite (Hlen ch). unfold SHW_RINGBUF_NUM_ITEMS. lia. }
  split; [exact Hbuf|].
  rewrite Havg, ringbuf_avg_total by auto using sane_is_int.
  now rewrite Hbuf, total_rotate.
Qed.

Lemma average_of_last_ten_witness :
  last_avg Vat (passes Bench.boot Bench.ten_passes)
  = Z.quot (total (feeds Vat Bench.boot Bench.ten_passes)) 10.
Proof.
  refine (proj2 (average_of_last_ten Vat Bench.ten_passes Bench.boot _ _));
    vm_compute; reflexivity.
Defined.

(** ** The clock *)

Import Clock.

(** X17.  [bcdToDec] undoes binary coded decimal: the byte that holds the
    two decimal digits of [n] in its nibbles is decoded to [n]. *)
Theorem bcdToDec_bcd (n : Z) : 0 <= n <= 99 -> bcdToDec (bcd n) = n.
Proof.
  intros Hn.
  assert (Hall : (bcdToDec (bcd n) =? n) = true).
  { apply (forallb_below (fun n => bcdToDec (bcd n) =? n) 100);
      [vm_compute; reflexivity | lia]. }
  now apply Z.eqb_eq in Hall.
Qed.

Lemma bcdToDec_bcd_witness : bcdToDec (bcd 59) = 59.
Proof. apply (bcdToDec_bcd 59). lia. Defined.

(** X18.  [Dec2s] writes two characters and the terminator.  Up to 99 the
    two characters are the decimal digits of the value; from 100 on they are
    not both digits. *)
Theorem Dec2s_decimal (value : Z) :
  0 <= value <= 255 ->
  exists c1 c2 : ascii,
    Dec2s value = [c1; c2; Monitor.NUL]
    /\ c_string (Dec2s value) = [c1; c2]
    /\ is_digit c1 && is_digit c2 = (value <=? 99)
    /\ (value <= 99 -> 10 * digit_value c1 + digit_value c2 = value).
Proof.
  intros Hv.
  pose proof (forallb_below
                (fun v =>
                   let c1 := ascii_of_nat (Z.to_nat (to_byte (48 + v / 10))) in
                   let c2 := ascii_of_nat (Z.to_nat (to_byte (48 + v mod 10))) in
                   negb (Ascii.eqb c1 Monitor.NUL) && negb (Ascii.eqb c2 Monitor.NUL)
                   && Bool.eqb (is_digit c1 && is_digit c2) (v <=? 99)
                   && implb (v <=? 99) (10 * digit_value c1 + digit_value c2 =? v))
                256 ltac:(vm_compute; reflexivity) value ltac:(lia)) as Hall.
  cbv beta zeta in Hall. unfold Dec2s.
  exists (ascii_of_nat (Z.to_nat (to_byte (48 + value / 10)))),
         (ascii_of_nat (Z.to_nat (to_byte (48 + value mod 10)))).
  revert Hall.
  generalize (ascii_of_nat (Z.to_nat (to_byte (48 + value / 10))))
             (ascii_of_nat (Z.to_nat (to_byte (48 + value mod 10)))).
  intros c1 c2 Hall.
  apply andb_true_iff in Hall as [Hall Hval].
  apply andb_true_iff in Hall as [Hall Hdigits].
  apply andb_true_iff in Hall as [Hc1%negb_true_iff Hc2%negb_true_iff].
  apply Bool.eqb_prop in Hdigits.
  split; [reflexivity|]. split; [|split; [exact Hdigits|]].
  - cbn [c_string]. rewrite Hc1, Hc2. reflexivity.
  - intros Hle. destruct (Z.leb_spec value 99) as [_|Hc]; [|lia].
    cbn [implb] in Hval. now apply Z.eqb_eq in Hval.
Qed.

Lemma Dec2s_decimal_witness :
  exists c1 c2 : ascii,
    Dec2s 7 = [c1; c2; Monitor.NUL]
    /\ c_string (Dec2s 7) = [c1; c2]
    /\ is_digit c1 && is_digit c2 = (7 <=? 99)
    /\ (7 <= 99 -> 10 * digit_value c1 + digit_value c2 = 7).
Proof. apply (Dec2s_decimal 7). lia. Defined.

Lemma read_clock_from (wire : nat -> registers) (k : nat) :
  forall fuel n : nat,
    (forall j : nat, (j < k)%nat -> plausible (decode_registers (wire (n + j)%nat)) = false) ->
    plausible (decode_registers (wire (n + k)%nat)) = true ->
    (k < fuel)%nat ->
    read_clock fuel n wire = Some (decode_registers (wire (n + k)%nat)).
Proof.
  induction k as [|k IH]; intros fuel n Hbad Hgood Hfuel;
    (destruct fuel as [|fuel]; [lia|]); cbn [read_clock].
  - rewrite Nat.add_0_r in Hgood |- *. now rewrite Hgood.
  - pose proof (Hbad 0%nat ltac:(lia)) as H0. rewrite Nat.add_0_r in H0. rewrite H0.
    replace (n + S k)%nat with (S n + k)%nat in Hgood |- * by lia.
    apply IH; [|exact Hgood|lia].
    intros j Hj. replace (S n + j)%nat with (n + S j)%nat by lia. apply Hbad. lia.
Qed.

(** X19.  The read loop goes round until the clock delivers a plausible
    reading and keeps that one: if round [k] is the first with a plausible
    reading, the loop ends after [k + 1] rounds with the reading of round
    [k]. *)
Theorem read_clock_first (wire : nat -> registers) (k fuel : nat) :
  (forall j : nat, (j < k)%nat -> plausible (decode_registers (wire j)) = false) ->
  plausible (decode_registers (wire k)) = true ->
  (k < fuel)%nat ->
  read_clock fuel 0 wire = Some (decode_registers (wire k)).
Proof.
  intros Hbad Hgood Hfuel. apply (read_clock_from wire k fuel 0); assumption.
Qed.

Lemma read_clock_first_witness :
  read_clock 3 0 (fun n => if (n <? 2)%nat then no_clock else end_of_century)
  = Some (decode_registers end_of_century).
Proof.
  apply (read_clock_first
           (fun n => if (n <? 2)%nat then no_clock else end_of_century) 2 3).
  - intros j Hj. destruct j as [|[|j]]; [reflexivity|reflexivity|lia].
  - reflexivity.
  - lia.
Defined.

(** X20.  The read loop has no other way out: while the clock delivers
    no plausible reading the loop goes on, however many rounds it is
    given. *)
Theorem read_clock_never_ends (wire : nat -> registers) :
  (forall n : nat, plausible (decode_registers (wire n)) = false) ->
  forall fuel n : nat, read_clock fuel n wire = None.
Proof.
  intros Hbad fuel. induction fuel as [|fuel IH]; intros n; cbn [read_clock];
    [reflexivity|]. rewrite Hbad. apply IH.
Qed.

Lemma read_clock_never_ends_witness :
  read_clock 1000 0 (fun _ => no_clock) = None.
Proof.
  apply (read_clock_never_ends (fun _ => no_clock)). intros n. reflexivity.
Defined.

Lemma mask_bcd (n : Z) :
  0 <= n <= 59 -> Z.land (bcd n) 127 = bcd n /\ (n <= 23 -> Z.land (bcd n) 63 = bcd n).
Proof.
  intros Hn.
  pose proof (forallb_below
                (fun n => (Z.land (bcd n) 127 =? bcd n)
                          && implb (n <=? 23) (Z.land (bcd n) 63 =? bcd n))
                60 ltac:(vm_compute; reflexivity) n ltac:(lia)) as Hall.
  cbv beta in Hall. apply andb_true_iff in Hall as [H127 H63].
  split; [now apply Z.eqb_eq|]. intros Hle.
  destruct (Z.leb_spec n 23) as [_|Hc]; [|lia]. now apply Z.eqb_eq.
Qed.

(** X21.  A clock that shows a date and time in binary coded decimal is
    read back field for field, the masks on the seconds and hours registers
    notwithstanding, and the reading is plausible, so that the read loop is
    left after one round. *)
Theorem valid_time_is_read (wire : nat -> registers) (s m h dw d mo y : Z) :
  0 <= s <= 59 -> 0 <= m <= 59 -> 0 <= h <= 23 -> 0 <= dw <= 7 ->
  0 <= d <= 31 -> 0 <= mo <= 12 -> 0 <= y <= 99 ->
  byte_val (reg_second (wire 0%nat)) = bcd s ->
  byte_val (reg_minute (wire 0%nat)) = bcd m ->
  byte_val (reg_hour (wire 0%nat)) = bcd h ->
  byte_val (reg_dayofweek (wire 0%nat)) = bcd dw ->
  byte_val (reg_day (wire 0%nat)) = bcd d ->
  byte_val (reg_month (wire 0%nat)) = bcd mo ->
  byte_val (reg_year (wire 0%nat)) = bcd y ->
  forall fuel : nat,
    read_clock (S fuel) 0 wire
    = Some {| second := s; minute := m; hour := h; dayofweek := dw;
              day := d; month := mo; year := y |}.
Proof.
  intros Hs Hm Hh Hdw Hd Hmo Hy Es Em Eh Edw Ed Emo Ey fuel.
  assert (Hback : forall n, 0 <= n <= 99 -> bcdToDec (bcd n) = n).
  { intros n Hn.
    assert (Hall : (bcdToDec (bcd n) =? n) = true).
    { apply (forallb_below (fun n => bcdToDec (bcd n) =? n) 100);
        [vm_compute; reflexivity | lia]. }
    now apply Z.eqb_eq in Hall. }
  assert (Hread : decode_registers (wire 0%nat)
                  = {| second := s; minute := m; hour := h; dayofweek := dw;
                       day := d; month := mo; year := y |}).
  { unfold decode_registers. rewrite Es, Em, Eh, Edw, Ed, Emo, Ey.
    rewrite (proj1 (mask_bcd s ltac:(lia))), (proj2 (mask_bcd h ltac:(lia))) by lia.
    rewrite !Hback by lia. reflexivity. }
  cbn [read_clock]. rewrite Hread.
  unfold plausible. cbn [second minute hour day month year].
  destruct (Z.leb_spec h 23); [|lia]. destruct (Z.leb_spec m 59); [|lia].
  destruct (Z.leb_spec s 59); [|lia]. destruct (Z.leb_spec y 100); [|lia].
  destruct (Z.leb_spec mo 12); [|lia]. destruct (Z.leb_spec d 31); [|lia].
  reflexivity.
Qed.

Lemma valid_time_is_read_witness :
  read_clock 1 0 (fun _ => end_of_century)
  = Some {| second := 58; minute := 59; hour := 23; dayofweek := 5;
            day := 31; month := 12; year := 99 |}.
Proof.
  apply (valid_time_is_read (fun _ => end_of_century) 58 59 23 5 31 12 99);
    solve [lia | reflexivity].
Defined.

(** X22.  What the plausibility check lets into the records.  Every field
    of a plausible reading is printed as two decimal digits, except a year
    of 100, which the check lets through and [Dec2s] cannot print. *)
Theorem plausible_prints_digits (r : registers) :
  let t := decode_registers r in
  plausible t = true ->
  Forall (fun v => forallb is_digit (c_string (Dec2s v)) = true)
    [month t; day t; hour t; minute t; second t]
  /\ (forallb is_digit (c_string (Dec2s (year t))) = true <-> year t <> 100).
Proof.
  cbv zeta. intros Hp.
  assert (Hdigits : forall v, 0 <= v < 256 ->
            forallb is_digit (c_string (Dec2s v)) = (v <=? 99)).
  { intros v Hv. apply Bool.eqb_prop.
    apply (forallb_below
             (fun v => Bool.eqb (forallb is_digit (c_string (Dec2s v))) (v <=? 99)) 256);
      [vm_compute; reflexivity | lia]. }
  assert (Hbyte : forall z, 0 <= bcdToDec z < 256).
  { intros z. unfold bcdToDec, to_byte, wrapu. apply Z.mod_pos_bound. lia. }
  unfold plausible in Hp. rewrite !andb_true_iff, !Z.leb_le in Hp.
  destruct Hp as (((((Hh & Hm) & Hs) & Hy) & Hmo) & Hd).
  unfold decode_registers in *.
  cbn [second minute hour day month year] in *.
  split.
  - repeat constructor;
      (rewrite Hdigits by apply Hbyte; apply Z.leb_le; lia).
  - rewrite Hdigits by apply Hbyte. rewrite Z.leb_le. lia.
Qed.

Lemma plausible_prints_digits_witness :
  forallb is_digit (c_string (Dec2s (year (decode_registers end_of_century)))) = true.
Proof.
  pose proof (plausible_prints_digits end_of_century) as Hw.
  cbv zeta in Hw. refine (proj2 (proj2 (Hw _)) _).
  - reflexivity.
  - vm_compute. intros Hc. discriminate Hc.
Defined.
